(** * LogChannel: channel-gated console logging

    A shallow embedding of [src/logchannel.ts] and of its interface-annotated
    twin [src/unnamed/part_000], together with the part of the JavaScript host
    they rely on: UTF-16 strings with [trim], [split], [toUpperCase], string
    arrays that live in a heap and are handled by reference, exceptions, the
    Deno environment and the three console functions. *)

From Stdlib Require Import Ascii String.
From stdpp Require Import base decidable numbers option list.

Local Open Scope N_scope.

(** ** JavaScript strings *)

(** A string is its sequence of UTF-16 code units. *)
Definition code_unit := N.
Definition jsstring := list code_unit.

(** A literal of the source, written in ASCII. *)
Definition js (s : string) : jsstring :=
  map (fun c => N_of_ascii c) (list_ascii_of_string s).

(** The code units removed by [String.prototype.trim]: ECMAScript's
    WhiteSpace and LineTerminator productions (all of them lie in the Basic
    Multilingual Plane, so each is one code unit). *)
Definition is_white_space (c : code_unit) : bool :=
  (c =? 0x0009) || (c =? 0x000A) || (c =? 0x000B) || (c =? 0x000C) ||
  (c =? 0x000D) || (c =? 0x0020) || (c =? 0x00A0) || (c =? 0x1680) ||
  ((0x2000 <=? c) && (c <=? 0x200A)) ||
  (c =? 0x2028) || (c =? 0x2029) || (c =? 0x202F) || (c =? 0x205F) ||
  (c =? 0x3000) || (c =? 0xFEFF).

Fixpoint trimStart (s : jsstring) : jsstring :=
  match s with
  | [] => []
  | c :: r => if is_white_space c then trimStart r else s
  end.

Fixpoint trimEnd (s : jsstring) : jsstring :=
  match s with
  | [] => []
  | c :: r =>
      match trimEnd r with
      | [] => if is_white_space c then [] else [c]
      | r' => c :: r'
      end
  end.

(** [s.trim()] *)
Definition trim (s : jsstring) : jsstring := trimEnd (trimStart s).

(** [s !== ""] *)
Definition non_empty (s : jsstring) : bool :=
  match s with [] => false | _ :: _ => true end.

(** [s.split(sep)] for a separator of one code unit: the pieces between the
    separators, in order; a string without separator (the empty string too) is
    one piece. *)
Fixpoint split (sep : code_unit) (s : jsstring) : list jsstring :=
  match s with
  | [] => [[]]
  | c :: r =>
      if c =? sep then [] :: split sep r
      else match split sep r with
           | p :: ps => (c :: p) :: ps
           | [] => [[c]]
           end
  end.

Definition comma : code_unit := 0x2C.

(** [xs.includes(x)] on an array of strings: SameValueZero on strings is
    equality of the code unit sequences. *)
Fixpoint includes (xs : list jsstring) (x : jsstring) : bool :=
  match xs with
  | [] => false
  | y :: ys => if decide (y = x) then true else includes ys x
  end.

Definition is_ascii (c : code_unit) : bool := c <? 0x80.

Definition ascii_upper (c : code_unit) : code_unit :=
  if (0x61 <=? c) && (c <=? 0x7A) then c - 0x20 else c.

Section UnicodeHost.
(** The host's Unicode upper-case mapping, used for strings that are not
    pure ASCII; its table is not part of the repository. *)
Variable unicode_upper : jsstring -> jsstring.

(** [s.toUpperCase()]: on ASCII strings exactly a-z are mapped to A-Z. *)
Definition toUpperCase (s : jsstring) : jsstring :=
  if forallb is_ascii s then map ascii_upper s else unicode_upper s.
End UnicodeHost.


(** ** Values, exceptions, and the store *)

(** JavaScript values as far as the module meets them: it builds strings and
    passes everything else through unopened. A number is kept as the bit
    pattern of its double, an object as its identity, an error object by its
    name. *)
Inductive jsvalue : Type :=
  | VUndefined
  | VNull
  | VBoolean (b : bool)
  | VNumber (bits : N)
  | VString (s : jsstring)
  | VObject (id : nat)
  | VError (name : jsstring).

(** How a call ends: with a value, or with a thrown value. *)
Inductive Completion (A : Type) : Type :=
  | Normal (a : A)
  | Throw (e : jsvalue).
Arguments Normal {A} a.
Arguments Throw {A} e.

(** Arrays of strings are objects: they live in a heap and are passed around
    as references. A reference is the index of its cell. *)
Abbreviation loc := nat.
Abbreviation Heap := (list (list jsstring)).

Inductive ConsoleFn : Type := console_log | console_error | console_debug.

(** What the console has received: one entry per call, oldest first, each
    with the function that was called and its argument list. *)
Definition Console := list (ConsoleFn * list jsvalue).

(** The store: the heap of string arrays, the module's one variable
    [let activeChannels: string[]] ([None] while it is still unassigned), and
    the console. *)
Record State : Type := mkState {
  heap : Heap;
  activeChannels : option loc;
  console : Console
}.

(** Computations: state passing with exceptions; a throw keeps the store as
    it was at the throw. *)
Definition M (A : Type) : Type := State -> Completion A * State.

#[export] Instance M_ret : MRet M := fun A a st => (Normal a, st).
#[export] Instance M_bind : MBind M := fun A B k m st =>
  match m st with
  | (Normal a, st') => k a st'
  | (Throw e, st') => (Throw e, st')
  end.

Definition throw {A} (e : jsvalue) : M A := fun st => (Throw e, st).

(** [try { body } catch (e) { handler }] *)
Definition try_catch {A} (body : M A) (handler : jsvalue -> M A) : M A :=
  fun st =>
    match body st with
    | (Normal a, st') => (Normal a, st')
    | (Throw e, st') => handler e st'
    end.

Definition TypeError : jsvalue := VError (js "TypeError").

(** *** Arrays *)

(** An array literal, and every method that returns a new array, allocates a
    fresh cell. *)
Definition new_array (xs : list jsstring) : M loc :=
  fun st => (Normal (length (heap st)),
             mkState (heap st ++ [xs]) (activeChannels st) (console st)).

(** Reading through a reference. No JavaScript program holds a reference to
    an array that does not exist; the model answers such a read with a
    throw. *)
Definition read_array (a : loc) : M (list jsstring) :=
  fun st => match heap st !! a with
            | Some xs => (Normal xs, st)
            | None => (Throw TypeError, st)
            end.

(** Any in-place mutation of an array ([a[i] = x], [push], [pop], [sort],
    [a.length = n], ...) seen as the replacement of its contents. *)
Definition write_array (a : loc) (xs : list jsstring) : M unit :=
  fun st => match heap st !! a with
            | Some _ => (Normal tt,
                         mkState (<[a := xs]> (heap st)) (activeChannels st) (console st))
            | None => (Throw TypeError, st)
            end.

(** [s.split(sep)] *)
Definition String_split (s : jsstring) (sep : code_unit) : M loc :=
  new_array (split sep s).

(** [a.map(f)] *)
Definition Array_map (f : jsstring -> jsstring) (a : loc) : M loc :=
  xs ← read_array a; new_array (map f xs).

(** [a.filter(p)] *)
Definition Array_filter (p : jsstring -> bool) (a : loc) : M loc :=
  xs ← read_array a; new_array (List.filter p xs).

(** [a.length] *)
Definition Array_length (a : loc) : M nat :=
  xs ← read_array a; mret (length xs).

(** [a.includes(x)] *)
Definition Array_includes (a : loc) (x : jsstring) : M bool :=
  xs ← read_array a; mret (includes xs x).

(** [[...a]] *)
Definition Array_spread (a : loc) : M loc :=
  xs ← read_array a; new_array xs.

(** *** The variable [activeChannels] *)

(** Every use of the variable in the source is a property access or a
    spread, which throw a TypeError while it is still [undefined]. *)
Definition get_activeChannels : M loc :=
  fun st => match activeChannels st with
            | Some a => (Normal a, st)
            | None => (Throw TypeError, st)
            end.

(** [activeChannels = a] *)
Definition set_activeChannels (a : loc) : M unit :=
  fun st => (Normal tt, mkState (heap st) (Some a) (console st)).

(** *** Console and environment *)

(** [outputFn(...args)] *)
Definition console_call (outputFn : ConsoleFn) (args : list jsvalue) : M unit :=
  fun st => (Normal tt,
             mkState (heap st) (activeChannels st) (console st ++ [(outputFn, args)])).

(** The Deno environment facility: either access to it throws (no
    permission, no [Deno] at all), or it holds the process's variables. *)
Inductive DenoEnv : Type :=
  | EnvFails (e : jsvalue)
  | EnvVars (vars : jsstring -> option jsstring).

(** [Deno.env.get(name)]: [None] stands for [undefined]. *)
Definition Deno_env_get (deno : DenoEnv) (name : jsstring) : M (option jsstring) :=
  match deno with
  | EnvFails e => throw e
  | EnvVars vars => mret (vars name)
  end.

(** The argument of [setChannel]: [string | string[]]. *)
Inductive StringOrArray : Type :=
  | IsString (s : jsstring)
  | IsArray (a : loc).

(** The optional parameter [logType?: "ERROR" | "DEBUG"]. *)
Inductive LogType : Type := ERROR | DEBUG.

Definition LogType_string (t : LogType) : jsstring :=
  match t with ERROR => js "ERROR" | DEBUG => js "DEBUG" end.

(** [export interface ILogChannel] (part_000, lines 36-69): the shape of the
    object both files export. *)
Record ILogChannel : Type := mkLogChannel {
  setChannel : StringOrArray -> M unit;
  log : jsstring -> list jsvalue -> M unit;
  error : jsstring -> list jsvalue -> M unit;
  debug : jsstring -> list jsvalue -> M unit;
  getActiveChannels : M loc
}.


(** ** src/logchannel.ts *)

(** The condition [messages.length > 0 && activeChannels.includes(channel)]
    evaluates its right side only when the left one holds; so does
    [channelsFromEnv && channelsFromEnv.trim() !== ""], whose left side is
    false for [undefined] and for the empty string. *)
Module logchannel_ts.

Section Host.
Variable unicode_upper : jsstring -> jsstring.
Variable deno : DenoEnv.

Definition initChannels : M unit :=
  try_catch
    (channelsFromEnv ← Deno_env_get deno (js "LOG_CHANNELS");
     match channelsFromEnv with
     | Some v =>
         if non_empty v && non_empty (trim v) then
           pieces ← String_split v comma;
           trimmed ← Array_map trim pieces;
           kept ← Array_filter non_empty trimmed;
           set_activeChannels kept;;
           a ← get_activeChannels;
           n ← Array_length a;
           if (n =? 0)%nat then
             d ← new_array [js "default"]; set_activeChannels d
           else mret tt
         else
           d ← new_array [js "default"]; set_activeChannels d
     | None =>
         d ← new_array [js "default"]; set_activeChannels d
     end)
    (fun _e => d ← new_array [js "default"]; set_activeChannels d).

Definition setChannel (channels : StringOrArray) : M unit :=
  match channels with
  | IsArray a =>
      trimmed ← Array_map trim a;
      kept ← Array_filter non_empty trimmed;
      set_activeChannels kept
  | IsString s =>
      let trimmedChannel := trim s in
      d ← (if non_empty trimmedChannel then new_array [trimmedChannel]
           else new_array []);
      set_activeChannels d
  end.

Definition _processLogEvent (outputFn : ConsoleFn) (channel : jsstring)
    (messages : list jsvalue) (logType : option LogType) : M unit :=
  if (0 <? length messages)%nat then
    a ← get_activeChannels;
    active ← Array_includes a channel;
    if (active : bool) then
      let prefix :=
        match logType with
        | Some t => js "[" ++ toUpperCase unicode_upper channel ++ js ":"
                      ++ LogType_string t ++ js "]"
        | None => js "[" ++ toUpperCase unicode_upper channel ++ js "]"
        end in
      console_call outputFn (VString prefix :: messages)
    else mret tt
  else mret tt.

Definition log (channel : jsstring) (messages : list jsvalue) : M unit :=
  _processLogEvent console_log channel messages None.

Definition error (channel : jsstring) (messages : list jsvalue) : M unit :=
  _processLogEvent console_error channel messages (Some ERROR).

Definition debug (channel : jsstring) (messages : list jsvalue) : M unit :=
  _processLogEvent console_debug channel messages (Some DEBUG).

Definition getActiveChannels : M loc :=
  a ← get_activeChannels; Array_spread a.

(** The module body: run [initChannels], then hand out the object. *)
Definition LogChannel : M ILogChannel :=
  initChannels;;
  mret (mkLogChannel setChannel log error debug getActiveChannels).
End Host.
End logchannel_ts.

(** ** src/unnamed/part_000 *)

(** The same module with its export annotated [ILogChannel]. *)
Module part_000.

Section Host.
Variable unicode_upper : jsstring -> jsstring.
Variable deno : DenoEnv.

Definition initChannels : M unit :=
  try_catch
    (channelsFromEnv ← Deno_env_get deno (js "LOG_CHANNELS");
     match channelsFromEnv with
     | Some v =>
         if non_empty v && non_empty (trim v) then
           pieces ← String_split v comma;
           trimmed ← Array_map trim pieces;
           kept ← Array_filter non_empty trimmed;
           set_activeChannels kept;;
           a ← get_activeChannels;
           n ← Array_length a;
           if (n =? 0)%nat then
             d ← new_array [js "default"]; set_activeChannels d
           else mret tt
         else
           d ← new_array [js "default"]; set_activeChannels d
     | None =>
         d ← new_array [js "default"]; set_activeChannels d
     end)
    (fun _e => d ← new_array [js "default"]; set_activeChannels d).

Definition setChannel (channels : StringOrArray) : M unit :=
  match channels with
  | IsArray a =>
      trimmed ← Array_map trim a;
      kept ← Array_filter non_empty trimmed;
      set_activeChannels kept
  | IsString s =>
      let trimmedChannel := trim s in
      d ← (if non_empty trimmedChannel then new_array [trimmedChannel]
           else new_array []);
      set_activeChannels d
  end.

Definition _processLogEvent (outputFn : ConsoleFn) (channel : jsstring)
    (messages : list jsvalue) (logType : option LogType) : M unit :=
  if (0 <? length messages)%nat then
    a ← get_activeChannels;
    active ← Array_includes a channel;
    if (active : bool) then
      let prefix :=
        match logType with
        | Some t => js "[" ++ toUpperCase unicode_upper channel ++ js ":"
                      ++ LogType_string t ++ js "]"
        | None => js "[" ++ toUpperCase unicode_upper channel ++ js "]"
        end in
      console_call outputFn (VString prefix :: messages)
    else mret tt
  else mret tt.

Definition log (channel : jsstring) (messages : list jsvalue) : M unit :=
  _processLogEvent console_log channel messages None.

Definition error (channel : jsstring) (messages : list jsvalue) : M unit :=
  _processLogEvent console_error channel messages (Some ERROR).

Definition debug (channel : jsstring) (messages : list jsvalue) : M unit :=
  _processLogEvent console_debug channel messages (Some DEBUG).

Definition getActiveChannels : M loc :=
  a ← get_activeChannels; Array_spread a.

(** The module body: run [initChannels], then hand out the object. *)
Definition LogChannel : M ILogChannel :=
  initChannels;;
  mret (mkLogChannel setChannel log error debug getActiveChannels).
End Host.
End part_000.

(** The object the module body of [src/logchannel.ts] returns. *)
Definition exported (unicode_upper : jsstring -> jsstring) : ILogChannel :=
  mkLogChannel logchannel_ts.setChannel
    (logchannel_ts.log unicode_upper) (logchannel_ts.error unicode_upper)
    (logchannel_ts.debug unicode_upper) logchannel_ts.getActiveChannels.

(** ** Observations and the client *)

(** The active set: the contents of the array [activeChannels] refers to. *)
Definition active_set (st : State) : option (list jsstring) :=
  a ← activeChannels st; heap st !! a.

(** The store a computation leaves, and what it sent to the console. *)
Definition after {A} (m : M A) (st : State) : State := (m st).2.

Definition emits {A} (m : M A) (st : State) : Prop :=
  exists record, console (after m st) = console st ++ [record].

Definition silent {A} (m : M A) (st : State) : Prop :=
  console (after m st) = console st.

(** A client mutating one array again and again: [xss] lists the contents
    it has after each mutation. *)
Fixpoint mutate (a : loc) (xss : list (list jsstring)) : M unit :=
  match xss with
  | [] => mret tt
  | xs :: rest => write_array a xs;; mutate a rest
  end.

(** What the program that imports the module can do: call the five exported
    functions, create arrays of its own, and mutate arrays it has a reference
    to. *)
Inductive Action : Type :=
  | call_setChannel (channels : StringOrArray)
  | call_log (channel : jsstring) (messages : list jsvalue)
  | call_error (channel : jsstring) (messages : list jsvalue)
  | call_debug (channel : jsstring) (messages : list jsvalue)
  | call_getActiveChannels
  | client_new_array (xs : list jsstring)
  | client_write (a : loc) (xs : list jsstring).

Section Client.
Variable L : ILogChannel.

(** One action; the result is the array reference it returns, if any. *)
Definition perform (act : Action) : M (option loc) :=
  match act with
  | call_setChannel channels => setChannel L channels;; mret None
  | call_log channel messages => log L channel messages;; mret None
  | call_error channel messages => error L channel messages;; mret None
  | call_debug channel messages => debug L channel messages;; mret None
  | call_getActiveChannels => a ← getActiveChannels L; mret (Some a)
  | client_new_array xs => a ← new_array xs; mret (Some a)
  | client_write a xs => write_array a xs;; mret None
  end.

(** A sequence of actions, with the completion of each. *)
Fixpoint run (acts : list Action) (st : State)
    : list (Completion (option loc)) * State :=
  match acts with
  | [] => ([], st)
  | act :: rest =>
      let '(c, st1) := perform act st in
      let '(cs, st2) := run rest st1 in
      (c :: cs, st2)
  end.
End Client.

(** Loading the module in a store where [activeChannels] is unassigned, then
    running a client on the exported object. *)
Definition session (load : M ILogChannel) (acts : list Action)
    (h : Heap) (out : Console)
    : Completion (list (Completion (option loc))) * State :=
  match load (mkState h None out) with
  | (Normal L, st) => let '(cs, st') := run L acts st in (Normal cs, st')
  | (Throw e, st) => (Throw e, st)
  end.

(** The store together with the array references the client holds. *)
Record World : Type := mkWorld {
  store : State;
  held : list loc
}.

(** A client names only references it holds. *)
Definition may (w : World) (act : Action) : Prop :=
  match act with
  | call_setChannel (IsArray a) => a ∈ held w
  | client_write a _ => a ∈ held w
  | _ => True
  end.

Definition step (L : ILogChannel) (act : Action) (w : World) : World :=
  match perform L act (store w) with
  | (Normal (Some a), st) => mkWorld st (a :: held w)
  | (_, st) => mkWorld st (held w)
  end.

(** The worlds a client can bring about: the module is loaded over the
    arrays that exist by then, all of them the client's, and then the client
    acts. *)
Inductive reachable (load : M ILogChannel) : ILogChannel -> World -> Prop :=
  | reach_load h out L st :
      load (mkState h None out) = (Normal L, st) ->
      reachable load L (mkWorld st (seq 0 (length h)))
  | reach_step L w act :
      reachable load L w -> may w act ->
      reachable load L (step L act w).

(** The invariant of the data model: every element of the active set is its
    own trimmed form and is not empty. *)
Definition trimmed_non_empty (x : jsstring) : Prop :=
  trim x = x /\ x <> [].

(** The environment values for which the specification asks for the default
    set: access fails, the variable is unset, its value trims to nothing, or
    no piece survives. *)
Definition degenerate (deno : DenoEnv) : Prop :=
  match deno with
  | EnvFails _ => True
  | EnvVars vars =>
      match vars (js "LOG_CHANNELS") with
      | None => True
      | Some v =>
          trim v = [] \/ List.filter non_empty (map trim (split comma v)) = []
      end
  end.

(** What holds of every world a client can bring about: the variable is
    assigned an existing array that meets the invariant and that the client
    has no reference to, and the client's references all exist. *)
Definition world_inv (w : World) : Prop :=
  exists a acts,
    activeChannels (store w) = Some a /\
    heap (store w) !! a = Some acts /\
    Forall trimmed_non_empty acts /\
    (a ∉ held w) /\
    Forall (fun b => (b < length (heap (store w)))%nat) (held w).

(** ** Concrete stores and environments for the examples *)

(** The store before the module is loaded, with no array in it yet. *)
Definition unloaded : State := mkState [] None [].

(** An environment in which [LOG_CHANNELS] is set to [v] and nothing else is
    set. *)
Definition env_with (v : jsstring) : DenoEnv :=
  EnvVars (fun name => if decide (name = js "LOG_CHANNELS") then Some v else None).

(** A store whose active set is [["net"]]. *)
Definition st_net : State := mkState [[js "net"]] (Some 0%nat) [].

(** A store in which the client has the array [["  ", "\t", "ok"]] and the
    active set is [["x", "y"]]. *)
Definition st_xy : State :=
  mkState [[js "  "; [0x09]; js "ok"]; [js "x"; js "y"]] (Some 1%nat) [].

(** A call with one message, a string. *)
Definition one (text : jsstring) : list jsvalue := [VString text].

(** A host table for the examples, which only use ASCII channels. *)
Definition no_table : jsstring -> jsstring := fun s => s.

(** The object the module of [src/logchannel.ts] hands out under that
    table. *)
Definition api_object : ILogChannel := exported no_table.

(** The world after the module is loaded with [LOG_CHANNELS="a,b"] and the
    client has called [setChannel(" api ")]. *)
Definition w_api : World :=
  step api_object (call_setChannel (IsString (js " api ")))
    (mkWorld (after (logchannel_ts.LogChannel no_table (env_with (js "a,b")))
                unloaded)
       (seq 0 0)).

(** ** Further notions for the properties of the module *)

(** [xs.join(sep)] for a separator of one code unit: how a list of channel
    names is written into [LOG_CHANNELS]. *)
Fixpoint join (sep : code_unit) (xs : list jsstring) : jsstring :=
  match xs with
  | [] => []
  | [x] => x
  | x :: rest => x ++ sep :: join sep rest
  end.

(** A channel name that survives [LOG_CHANNELS] as it is: its own trimmed
    form, not empty, without a comma. *)
Definition clean_name (x : jsstring) : Prop :=
  trimmed_non_empty x /\ comma ∉ x.

(** The calls that only log. *)
Definition is_logging (act : Action) : Prop :=
  match act with
  | call_log _ _ | call_error _ _ | call_debug _ _ => True
  | _ => False
  end.

(** The console entries a logging call makes when the active set is [acts]:
    one if it has a message and its channel is in [acts], none otherwise. *)
Definition entries_of (unicode_upper : jsstring -> jsstring)
    (acts : list jsstring) (act : Action) : list (ConsoleFn * list jsvalue) :=
  let entry outputFn tail channel messages :=
    if (0 <? length messages)%nat && includes acts channel
    then [(outputFn,
           VString (js "[" ++ toUpperCase unicode_upper channel ++ tail)
             :: messages)]
    else [] in
  match act with
  | call_log channel messages => entry console_log (js "]") channel messages
  | call_error channel messages =>
      entry console_error (js ":ERROR]") channel messages
  | call_debug channel messages =>
      entry console_debug (js ":DEBUG]") channel messages
  | _ => []
  end.

(** ** src/logchannel_test.ts *)

(** The test script: it imports the module, which loads it, and then prints
    headings and the arrays [getActiveChannels] returns with [console.log]
    between its calls of the module. An array literal creates an array; an
    array that is printed goes to the console as the object it is. *)
Definition logchannel_test (unicode_upper : jsstring -> jsstring)
    (deno : DenoEnv) : M unit :=
  L ← logchannel_ts.LogChannel unicode_upper deno;
  console_call console_log
    [VString (js "--- Initial State (from .env or default) ---")];;
  console_call console_log
    [VString (js "Expected initial active channels (e.g., from .env LOG_CHANNELS=" ++ [0x22] ++ js "default" ++ [0x22] ++ js "): [" ++ [0x22] ++ js "default" ++ [0x22] ++ js "]")];;
  shown ← getActiveChannels L;
  console_call console_log
    [VString (js "Actual active channels:");
     VObject shown];;
  log L (js "default")
    [VString (js "This is a default channel message (should print if 'default' is active).")];;
  log L (js "init")
    [VString (js "This is an 'init' channel message (should NOT print if 'init' is not active).")];;
  log L (js "specific_debug")
    [VString (js "This is a 'specific_debug' channel message (should NOT print).")];;
  error L (js "default")
    [VString (js "This is a default channel error (should print if 'default' is active).")];;
  error L (js "specific_error")
    [VString (js "This is a 'specific_error' channel error (should NOT print).")];;
  debug L (js "default")
    [VString (js "This is a default channel debug message (should print if 'default' is active via console.debug).")];;
  debug L (js "trace")
    [VString (js "This is a 'trace' channel debug message (should NOT print).")];;
  console_call console_log
    [VString ([0x0A] ++ js "--- Activating 'user_ops', 'system_alerts', and 'default' channels ---")];;
  given ← new_array [js "user_ops"; js "system_alerts"; js "default"];
  setChannel L (IsArray given);;
  shown ← getActiveChannels L;
  console_call console_log
    [VString (js "Active channels:");
     VObject shown];;
  log L (js "default")
    [VString (js "Default log (still active).")];;
  log L (js "init")
    [VString (js "'init' channel log (still INACTIVE, should NOT print).")];;
  log L (js "user_ops")
    [VString (js "'user_ops' channel log (now ACTIVE).")];;
  error L (js "system_alerts")
    [VString (js "'system_alerts' channel error (now ACTIVE).")];;
  debug L (js "user_ops")
    [VString (js "'user_ops' channel debug (now ACTIVE).")];;
  debug L (js "default")
    [VString (js "Default debug (still active).")];;
  console_call console_log
    [VString ([0x0A] ++ js "--- Activating only 'custom_service' channel ---")];;
  setChannel L (IsString (js "custom_service"));;
  shown ← getActiveChannels L;
  console_call console_log
    [VString (js "Active channels:");
     VObject shown];;
  log L (js "default")
    [VString (js "Default log (now INACTIVE, should NOT print).")];;
  log L (js "user_ops")
    [VString (js "'user_ops' log (now INACTIVE, should NOT print).")];;
  log L (js "custom_service")
    [VString (js "'custom_service' channel log (now ACTIVE).")];;
  error L (js "custom_service")
    [VString (js "'custom_service' channel error (now ACTIVE).")];;
  debug L (js "custom_service")
    [VString (js "'custom_service' channel debug (now ACTIVE).")];;
  console_call console_log
    [VString ([0x0A] ++ js "--- Testing logs with no additional messages (should NOT print anything) ---")];;
  given ← new_array [js "default"; js "special_event"];
  setChannel L (IsArray given);;
  shown ← getActiveChannels L;
  console_call console_log
    [VString (js "Active channels:");
     VObject shown];;
  log L (js "default") [];;
  log L (js "special_event") [];;
  log L (js "inactive_channel") [];;
  console_call console_log
    [VString ([0x0A] ++ js "--- Testing setting empty or whitespace channels ---")];;
  setChannel L (IsString (js ""));;
  shown ← getActiveChannels L;
  console_call console_log
    [VString (js "Active channels (after setChannel('')):");
     VObject shown];;
  log L (js "default")
    [VString (js "Should NOT print, 'default' is not active.")];;
  given ← new_array [js "  "; [0x09]];
  setChannel L (IsArray given);;
  shown ← getActiveChannels L;
  console_call console_log
    [VString (js "Active channels (after setChannel(['  ', '\t'])):");
     VObject shown];;
  log L (js "default")
    [VString (js "Should NOT print, 'default' is not active.")];;
  setChannel L (IsString (js "final_channel"));;
  shown ← getActiveChannels L;
  console_call console_log
    [VString (js "Active channels:");
     VObject shown];;
  log L (js "final_channel")
    [VString (js "Message for 'final_channel'.")];;
  error L (js "final_channel")
    [VString (js "Error for 'final_channel'.")];;
  debug L (js "final_channel")
    [VString (js "Debug for 'final_channel'.")];;
  console_call console_log
    [VString ([0x0A] ++ js "--- Test Complete ---")].

(** ** The model on small inputs *)

Example trim_ex : trim (js "  a b	 ") = js "a b".
Proof. vm_compute. reflexivity. Qed.

Example split_ex :
  split comma (js "a, b ,c") = [js "a"; js " b "; js "c"] /\
  split comma (js "") = [js ""] /\
  split comma (js ",") = [js ""; js ""] /\
  split comma (js "a,") = [js "a"; js ""].
Proof. vm_compute. auto. Qed.

Example upper_ex : toUpperCase no_table (js "net_x1") = js "NET_X1".
Proof. vm_compute. reflexivity. Qed.

(** The calls of [src/logchannel_test.ts] in short: with no [LOG_CHANNELS]
    only ["default"] speaks; after [setChannel] of an array and of a string
    the new channels speak and the old ones are quiet; a call without
    messages and a call after [setChannel("")] send nothing. *)
Example test_script_console :
  console
    (session (logchannel_ts.LogChannel no_table (EnvVars (fun _ => None)))
       [call_log (js "default") (one (js "d1"));
        call_log (js "init") (one (js "no"));
        call_error (js "default") (one (js "e1"));
        call_debug (js "trace") (one (js "no"));
        client_new_array [js "user_ops"; js "system_alerts"; js "default"];
        call_setChannel (IsArray 1%nat);
        call_error (js "system_alerts") (one (js "e2"));
        call_setChannel (IsString (js "custom_service"));
        call_log (js "default") (one (js "no"));
        call_debug (js "custom_service") (one (js "d3"));
        call_log (js "custom_service") [];
        call_setChannel (IsString (js ""));
        call_log (js "default") (one (js "no"))]
       [] []).2
  = [(console_log, [VString (js "[DEFAULT]"); VString (js "d1")]);
     (console_error, [VString (js "[DEFAULT:ERROR]"); VString (js "e1")]);
     (console_error, [VString (js "[SYSTEM_ALERTS:ERROR]"); VString (js "e2")]);
     (console_debug, [VString (js "[CUSTOM_SERVICE:DEBUG]"); VString (js "d3")])].
Proof. vm_compute. reflexivity. Qed.

(** ** Strings *)

Section TrimFacts.
Implicit Types s r : jsstring.

Lemma trimStart_head s c r :
  trimStart s = c :: r -> is_white_space c = false.
Proof.
  induction s as [|d s IH]; simpl; [discriminate|].
  destruct (is_white_space d) eqn:Hd; [exact IH|].
  intros [= <- _]. exact Hd.
Qed.

Lemma trimStart_fixed c r :
  is_white_space c = false -> trimStart (c :: r) = c :: r.
Proof. intros H. simpl. now rewrite H. Qed.

Lemma trimEnd_keeps_head c r :
  is_white_space c = false -> exists r', trimEnd (c :: r) = c :: r'.
Proof.
  intros H. simpl. destruct (trimEnd r) as [|d r'].
  - rewrite H. now exists [].
  - now exists (d :: r').
Qed.

Lemma trimEnd_idemp s : trimEnd (trimEnd s) = trimEnd s.
Proof.
  induction s as [|c s IH]; simpl; [reflexivity|].
  destruct (trimEnd s) as [|d r] eqn:Hs.
  - destruct (is_white_space c) eqn:Hc; simpl; [reflexivity|].
    now rewrite Hc.
  - change (trimEnd (c :: d :: r)) with
      (match trimEnd (d :: r) with
       | [] => if is_white_space c then [] else [c]
       | r' => c :: r'
       end).
    now rewrite IH.
Qed.

Lemma trim_idemp s : trim (trim s) = trim s.
Proof.
  unfold trim. destruct (trimStart s) as [|c r] eqn:Hs; [reflexivity|].
  pose proof (trimStart_head _ _ _ Hs) as Hc.
  destruct (trimEnd_keeps_head c r Hc) as [r' Hr'].
  rewrite Hr', (trimStart_fixed _ _ Hc), <- Hr'.
  apply trimEnd_idemp.
Qed.

Lemma non_empty_true s : non_empty s = true <-> s <> [].
Proof. destruct s; simpl; split; congruence. Qed.
End TrimFacts.

Lemma includes_elem_of (xs : list jsstring) (x : jsstring) :
  includes xs x = true <-> x ∈ xs.
Proof.
  induction xs as [|y ys IH]; simpl.
  - split; [discriminate|]. intros H. inversion H.
  - destruct (decide (y = x)) as [->|Hne].
    + split; [intros _; left|reflexivity].
    + rewrite IH. split; [now right|].
      intros H. inversion H; subst; [congruence|assumption].
Qed.

Lemma kept_trimmed_non_empty (xs : list jsstring) :
  Forall trimmed_non_empty (List.filter non_empty (map trim xs)).
Proof.
  apply Forall_forall. intros x Hx.
  apply list_elem_of_In, filter_In in Hx. destruct Hx as [Hin Hne].
  apply in_map_iff in Hin. destruct Hin as (y & <- & _).
  split; [apply trim_idemp|now apply non_empty_true].
Qed.

(** ** Running the primitives *)

Lemma bind_normal {A B} (m : M A) (k : A -> M B) st a st' :
  m st = (Normal a, st') -> (m ≫= k) st = k a st'.
Proof. intros H. unfold mbind, M_bind. now rewrite H. Qed.

Lemma bind_throw {A B} (m : M A) (k : A -> M B) st e st' :
  m st = (Throw e, st') -> (m ≫= k) st = (Throw e, st').
Proof. intros H. unfold mbind, M_bind. now rewrite H. Qed.

Lemma lookup_fresh (h : Heap) (xs : list jsstring) :
  (h ++ [xs]) !! length h = Some xs.
Proof. apply list_lookup_middle. reflexivity. Qed.

Lemma lookup_old (h : Heap) (xs : list jsstring) (a : loc) :
  (a < length h)%nat -> (h ++ [xs]) !! a = h !! a.
Proof. intros H. now apply lookup_app_l. Qed.

Lemma active_set_fresh (h : Heap) (xs : list jsstring) (out : Console) :
  active_set (mkState (h ++ [xs]) (Some (length h)) out) = Some xs.
Proof. unfold active_set. simpl. apply lookup_fresh. Qed.

Lemma active_set_Some st acts :
  active_set st = Some acts <->
  exists a, activeChannels st = Some a /\ heap st !! a = Some acts.
Proof.
  unfold active_set. destruct (activeChannels st) as [a|]; simpl.
  - split; [intros H; now exists a|]. now intros (b & [= <-] & H).
  - split; [discriminate|]. now intros (b & [=] & _).
Qed.

Section PrimitiveRuns.
Variables (st : State) (a : loc) (xs : list jsstring).
Hypothesis Ha : heap st !! a = Some xs.

Lemma read_array_run : read_array a st = (Normal xs, st).
Proof using Ha. unfold read_array. now rewrite Ha. Qed.

Lemma Array_map_run f :
  Array_map f a st =
    (Normal (length (heap st)),
     mkState (heap st ++ [map f xs]) (activeChannels st) (console st)).
Proof using Ha.
  unfold Array_map. now rewrite (bind_normal _ _ _ _ _ read_array_run).
Qed.

Lemma Array_filter_run p :
  Array_filter p a st =
    (Normal (length (heap st)),
     mkState (heap st ++ [List.filter p xs]) (activeChannels st) (console st)).
Proof using Ha.
  unfold Array_filter. now rewrite (bind_normal _ _ _ _ _ read_array_run).
Qed.

Lemma Array_length_run : Array_length a st = (Normal (length xs), st).
Proof using Ha.
  unfold Array_length. now rewrite (bind_normal _ _ _ _ _ read_array_run).
Qed.

Lemma Array_includes_run x :
  Array_includes a x st = (Normal (includes xs x), st).
Proof using Ha.
  unfold Array_includes. now rewrite (bind_normal _ _ _ _ _ read_array_run).
Qed.

Lemma Array_spread_run :
  Array_spread a st =
    (Normal (length (heap st)),
     mkState (heap st ++ [xs]) (activeChannels st) (console st)).
Proof using Ha.
  unfold Array_spread. now rewrite (bind_normal _ _ _ _ _ read_array_run).
Qed.

Lemma write_array_run ys :
  write_array a ys st =
    (Normal tt, mkState (<[a := ys]> (heap st)) (activeChannels st) (console st)).
Proof using Ha. unfold write_array. now rewrite Ha. Qed.
End PrimitiveRuns.

Lemma get_activeChannels_run st a :
  activeChannels st = Some a -> get_activeChannels st = (Normal a, st).
Proof. intros H. unfold get_activeChannels. now rewrite H. Qed.

(** ** Running the functions of src/logchannel.ts *)

Lemma setChannel_array_run st a xs :
  heap st !! a = Some xs ->
  logchannel_ts.setChannel (IsArray a) st =
    (Normal tt,
     mkState ((heap st ++ [map trim xs]) ++ [List.filter non_empty (map trim xs)])
             (Some (length (heap st ++ [map trim xs]))) (console st)).
Proof.
  intros H. unfold logchannel_ts.setChannel.
  rewrite (bind_normal _ _ _ _ _ (Array_map_run _ _ _ H _)).
  erewrite bind_normal; [|apply Array_filter_run; simpl; apply lookup_fresh].
  reflexivity.
Qed.

Lemma setChannel_string_run st s :
  logchannel_ts.setChannel (IsString s) st =
    (Normal tt,
     mkState (heap st ++ [if non_empty (trim s) then [trim s] else []])
             (Some (length (heap st))) (console st)).
Proof. unfold logchannel_ts.setChannel. now destruct (non_empty (trim s)). Qed.

Lemma getActiveChannels_run st a xs :
  activeChannels st = Some a -> heap st !! a = Some xs ->
  logchannel_ts.getActiveChannels st =
    (Normal (length (heap st)),
     mkState (heap st ++ [xs]) (Some a) (console st)).
Proof.
  intros Hv Ha. unfold logchannel_ts.getActiveChannels.
  rewrite (bind_normal _ _ _ _ _ (get_activeChannels_run _ _ Hv)).
  rewrite (Array_spread_run _ _ _ Ha). now rewrite Hv.
Qed.

(** A call that cannot read the active set throws and leaves the store. *)
Lemma getActiveChannels_stuck st :
  active_set st = None ->
  logchannel_ts.getActiveChannels st = (Throw TypeError, st).
Proof.
  unfold active_set, logchannel_ts.getActiveChannels. intros H.
  destruct (activeChannels st) as [a|] eqn:Hv; simpl in H.
  - rewrite (bind_normal _ _ _ _ _ (get_activeChannels_run _ _ Hv)).
    unfold Array_spread. erewrite bind_throw; [reflexivity|].
    unfold read_array. now rewrite H.
  - erewrite bind_throw; [reflexivity|].
    unfold get_activeChannels. now rewrite Hv.
Qed.

Section LogRuns.
Variable unicode_upper : jsstring -> jsstring.

Lemma _processLogEvent_run outputFn channel messages logType st acts :
  active_set st = Some acts ->
  logchannel_ts._processLogEvent unicode_upper outputFn channel messages logType st =
    (Normal tt,
     if (0 <? length messages)%nat && includes acts channel
     then mkState (heap st) (activeChannels st)
            (console st ++
             [(outputFn,
               VString
                 match logType with
                 | Some t => js "[" ++ toUpperCase unicode_upper channel ++ js ":"
                               ++ LogType_string t ++ js "]"
                 | None => js "[" ++ toUpperCase unicode_upper channel ++ js "]"
                 end :: messages)])
     else st).
Proof.
  intros (a & Hv & Ha)%active_set_Some. unfold logchannel_ts._processLogEvent.
  destruct (0 <? length messages)%nat; [|reflexivity]. simpl.
  rewrite (bind_normal _ _ _ _ _ (get_activeChannels_run _ _ Hv)).
  rewrite (bind_normal _ _ _ _ _ (Array_includes_run _ _ _ Ha _)).
  destruct (includes acts channel); reflexivity.
Qed.

(** Whatever the store, the call leaves heap and variable alone. *)
Lemma _processLogEvent_frame outputFn channel messages logType st :
  let st' := after (logchannel_ts._processLogEvent unicode_upper outputFn channel
                      messages logType) st in
  heap st' = heap st /\ activeChannels st' = activeChannels st.
Proof.
  unfold after, logchannel_ts._processLogEvent.
  destruct (0 <? length messages)%nat; [|now split].
  unfold get_activeChannels, Array_includes, read_array.
  repeat (unfold mbind, M_bind; simpl).
  destruct (activeChannels st) as [a|] eqn:Hv; [|now split].
  destruct (heap st !! a) as [xs|]; [|now split].
  destruct (includes xs channel); now split.
Qed.
End LogRuns.

Lemma initChannels_default_run deno st :
  match deno with
  | EnvFails _ => True
  | EnvVars vars =>
      match vars (js "LOG_CHANNELS") with
      | None => True
      | Some v => trim v = []
      end
  end ->
  logchannel_ts.initChannels deno st =
    (Normal tt,
     mkState (heap st ++ [[js "default"]]) (Some (length (heap st))) (console st)).
Proof.
  unfold logchannel_ts.initChannels, try_catch. destruct deno as [e|vars]; simpl.
  - intros _. reflexivity.
  - unfold mbind at 1, M_bind at 1. simpl.
    destruct (vars _) as [v|]; [|reflexivity].
    intros ->. now rewrite andb_false_r.
Qed.

Lemma initChannels_split_run vars v st :
  vars (js "LOG_CHANNELS") = Some v -> trim v <> [] ->
  let pieces := split comma v in
  let trimmed := map trim pieces in
  let kept := List.filter non_empty trimmed in
  let h2 := (heap st ++ [pieces]) ++ [trimmed] in
  logchannel_ts.initChannels (EnvVars vars) st =
    (Normal tt,
     match kept with
     | [] => mkState ((h2 ++ [kept]) ++ [[js "default"]])
               (Some (length (h2 ++ [kept]))) (console st)
     | _ => mkState (h2 ++ [kept]) (Some (length h2)) (console st)
     end).
Proof.
  intros Hv Hne. unfold logchannel_ts.initChannels, try_catch. simpl.
  unfold mbind at 1, M_bind at 1. simpl. rewrite Hv.
  assert (non_empty v && non_empty (trim v) = true) as ->.
  { apply andb_true_iff. split; apply non_empty_true; [|assumption].
    intros ->. now apply Hne. }
  erewrite bind_normal; [|reflexivity].
  erewrite bind_normal; [|apply Array_map_run; simpl; apply lookup_fresh].
  erewrite bind_normal; [|apply Array_filter_run; simpl; apply lookup_fresh].
  erewrite bind_normal; [|reflexivity].
  erewrite bind_normal; [|reflexivity].
  erewrite bind_normal; [|apply Array_length_run; simpl; apply lookup_fresh].
  simpl. destruct (List.filter non_empty (map trim (split comma v))); reflexivity.
Qed.

Lemma default_trimmed_non_empty : Forall trimmed_non_empty [js "default"].
Proof. repeat constructor. discriminate. Qed.

(** However the environment answers, [initChannels] completes, allocates
    above the arrays that were there, and assigns a set that meets the
    invariant. *)
Lemma initChannels_shape deno st :
  exists cells acts,
    logchannel_ts.initChannels deno st =
      (Normal tt,
       mkState ((heap st ++ cells) ++ [acts]) (Some (length (heap st ++ cells)))
               (console st))
    /\ Forall trimmed_non_empty acts.
Proof.
  assert (Hdef : forall d, match d with
                      | EnvFails _ => True
                      | EnvVars vars =>
                          match vars (js "LOG_CHANNELS") with
                          | None => True
                          | Some v => trim v = []
                          end
                      end ->
            exists cells acts,
              logchannel_ts.initChannels d st =
                (Normal tt,
                 mkState ((heap st ++ cells) ++ [acts])
                   (Some (length (heap st ++ cells))) (console st))
              /\ Forall trimmed_non_empty acts).
  { intros d Hd. exists [], [js "default"]. rewrite app_nil_r.
    split; [now apply initChannels_default_run|apply default_trimmed_non_empty]. }
  destruct deno as [e|vars]; [now apply Hdef|].
  destruct (vars (js "LOG_CHANNELS")) as [v|] eqn:Hv;
    [|apply Hdef; now rewrite Hv].
  destruct (trim v) as [|c r] eqn:Ht; [apply Hdef; now rewrite Hv|].
  assert (Hne : trim v <> []) by now rewrite Ht.
  rewrite (initChannels_split_run vars v st Hv Hne).
  set (pieces := split comma v). set (trimmed := map trim pieces).
  destruct (List.filter non_empty trimmed) as [|k ks] eqn:Hk.
  - exists [pieces; trimmed; []], [js "default"].
    split; [|apply default_trimmed_non_empty].
    now rewrite <- !app_assoc.
  - exists [pieces; trimmed], (k :: ks).
    split; [|rewrite <- Hk; apply kept_trimmed_non_empty].
    now rewrite <- !app_assoc.
Qed.

(** ** Reachable worlds *)

Section Reachable.
Variable unicode_upper : jsstring -> jsstring.
Variable deno : DenoEnv.

Lemma LogChannel_run st :
  exists st',
    logchannel_ts.initChannels deno st = (Normal tt, st') /\
    logchannel_ts.LogChannel unicode_upper deno st = (Normal (exported unicode_upper), st').
Proof.
  destruct (initChannels_shape deno st) as (cells & acts & Hrun & _).
  eexists. split; [exact Hrun|].
  unfold logchannel_ts.LogChannel. now rewrite (bind_normal _ _ _ _ _ Hrun).
Qed.

Lemma load_inv h out L st :
  logchannel_ts.LogChannel unicode_upper deno (mkState h None out) = (Normal L, st) ->
  L = exported unicode_upper /\ world_inv (mkWorld st (seq 0 (length h))).
Proof.
  destruct (initChannels_shape deno (mkState h None out))
    as (cells & acts & Hrun & Hacts).
  unfold logchannel_ts.LogChannel. rewrite (bind_normal _ _ _ _ _ Hrun).
  intros [= <- <-]. split; [reflexivity|].
  exists (length (h ++ cells)), acts. simpl.
  split; [reflexivity|]. split; [apply lookup_fresh|]. split; [exact Hacts|].
  split.
  - rewrite elem_of_seq, length_app. lia.
  - apply Forall_forall. intros b Hb%elem_of_seq. rewrite !length_app. lia.
Qed.

Lemma log_step outputFn channel messages logType w :
  world_inv w ->
  exists st',
    logchannel_ts._processLogEvent unicode_upper outputFn channel messages
      logType (store w) = (Normal tt, st')
    /\ world_inv (mkWorld st' (held w)).
Proof.
  intros (a & acts & Hv & Ha & Hacts & Hfresh & Hheld).
  assert (Hset : active_set (store w) = Some acts)
    by (apply active_set_Some; eauto).
  rewrite (_processLogEvent_run _ _ _ _ _ _ _ Hset).
  eexists. split; [reflexivity|].
  exists a, acts.
  destruct ((0 <? length messages)%nat && includes acts channel); simpl; auto.
Qed.

Lemma step_inv w act :
  world_inv w -> may w act -> world_inv (step (exported unicode_upper) act w).
Proof.
  intros (a & acts & Hv & Ha & Hacts & Hfresh & Hheld) Hmay.
  pose proof (lookup_lt_Some _ _ _ Ha) as Hlt.
  assert (Hgrow : forall xs,
            Forall (fun b => (b < length (heap (store w) ++ [xs]))%nat) (held w)).
  { intros xs. eapply Forall_impl; [exact Hheld|].
    intros b Hb. simpl in Hb. rewrite length_app. simpl. lia. }
  assert (Hnew : length (heap (store w)) ∉ held w).
  { intros Hin. rewrite Forall_forall in Hheld. apply Hheld in Hin. lia. }
  destruct act as [[s|b]|ch ms|ch ms|ch ms| |xs|b xs];
    unfold step, perform, exported;
    cbn [setChannel log error debug getActiveChannels].
  - (* setChannel(string) *)
    rewrite (bind_normal _ _ _ _ _ (setChannel_string_run _ _)).
    exists (length (heap (store w))); eexists. cbn.
    split; [reflexivity|]. split; [apply lookup_fresh|].
    split; [|split; [exact Hnew|apply Hgrow]].
    destruct (non_empty (trim s)) eqn:Hs; [|constructor].
    repeat constructor; [apply trim_idemp|now apply non_empty_true].
  - (* setChannel(array) *)
    cbn in Hmay. rewrite Forall_forall in Hheld. pose proof (Hheld _ Hmay) as Hb.
    destruct (lookup_lt_is_Some_2 _ _ Hb) as [xs Hxs].
    rewrite (bind_normal _ _ _ _ _ (setChannel_array_run _ _ _ Hxs)).
    eexists; eexists. cbn.
    split; [reflexivity|]. split; [apply lookup_fresh|].
    split; [apply kept_trimmed_non_empty|]. split.
    + intros Hin. apply Hheld in Hin. rewrite length_app in Hin. lia.
    + apply Forall_forall. intros c Hc%Hheld. rewrite !length_app. lia.
  - (* log *)
    destruct (log_step console_log ch ms None w) as (st' & Hrun & Hw);
      [now exists a, acts|].
    unfold logchannel_ts.log. now rewrite (bind_normal _ _ _ _ _ Hrun).
  - (* error *)
    destruct (log_step console_error ch ms (Some ERROR) w) as (st' & Hrun & Hw);
      [now exists a, acts|].
    unfold logchannel_ts.error. now rewrite (bind_normal _ _ _ _ _ Hrun).
  - (* debug *)
    destruct (log_step console_debug ch ms (Some DEBUG) w) as (st' & Hrun & Hw);
      [now exists a, acts|].
    unfold logchannel_ts.debug. now rewrite (bind_normal _ _ _ _ _ Hrun).
  - (* getActiveChannels *)
    rewrite (bind_normal _ _ _ _ _ (getActiveChannels_run _ _ _ Hv Ha)).
    exists a, acts. cbn.
    split; [reflexivity|]. split; [now rewrite lookup_old|].
    split; [exact Hacts|]. split.
    + rewrite not_elem_of_cons. split; [lia|exact Hfresh].
    + constructor; [rewrite length_app; simpl; lia|apply Hgrow].
  - (* the client creates an array *)
    erewrite bind_normal; [|reflexivity].
    exists a, acts. cbn.
    split; [exact Hv|]. split; [now rewrite lookup_old|].
    split; [exact Hacts|]. split.
    + rewrite not_elem_of_cons. split; [lia|exact Hfresh].
    + constructor; [rewrite length_app; simpl; lia|apply Hgrow].
  - (* the client mutates an array it holds *)
    cbn in Hmay. rewrite Forall_forall in Hheld. pose proof (Hheld _ Hmay) as Hb.
    destruct (lookup_lt_is_Some_2 _ _ Hb) as [ys Hys].
    rewrite (bind_normal _ _ _ _ _ (write_array_run _ _ _ Hys _)).
    exists a, acts. unfold mret, M_ret. cbn [store held heap activeChannels].
    split; [exact Hv|]. split.
    { rewrite list_lookup_insert_ne; [exact Ha|]. intros ->. now apply Hfresh. }
    split; [exact Hacts|]. split; [exact Hfresh|].
    apply Forall_forall. intros c Hc%Hheld. now rewrite length_insert.
Qed.

Lemma reachable_inv L w :
  reachable (logchannel_ts.LogChannel unicode_upper deno) L w ->
  L = exported unicode_upper /\ world_inv w.
Proof.
  induction 1 as [h out L st Hload|L w act _ [-> IH] Hmay].
  - eapply load_inv; eassumption.
  - split; [reflexivity|now apply step_inv].
Qed.
End Reachable.

(** ** The two files agree *)

Lemma part_000_same :
  part_000.initChannels = logchannel_ts.initChannels /\
  part_000.setChannel = logchannel_ts.setChannel /\
  part_000._processLogEvent = logchannel_ts._processLogEvent /\
  part_000.log = logchannel_ts.log /\
  part_000.error = logchannel_ts.error /\
  part_000.debug = logchannel_ts.debug /\
  part_000.getActiveChannels = logchannel_ts.getActiveChannels /\
  part_000.LogChannel = logchannel_ts.LogChannel.
Proof. repeat split. Qed.

(** ** Gating *)

Section Gating.
Variable unicode_upper : jsstring -> jsstring.
Variables (st : State) (acts : list jsstring).
Hypothesis Hacts : active_set st = Some acts.

Lemma fires_iff (channel : jsstring) (messages : list jsvalue) :
  (0 <? length messages)%nat && includes acts channel = true <->
  messages <> [] /\ channel ∈ acts.
Proof.
  rewrite andb_true_iff, includes_elem_of, Nat.ltb_lt.
  destruct messages; simpl; split; intros [H1 H2]; split;
    try assumption; try lia; congruence.
Qed.

Lemma _processLogEvent_emits outputFn channel messages logType :
  emits (logchannel_ts._processLogEvent unicode_upper outputFn channel messages
           logType) st
  <-> messages <> [] /\ channel ∈ acts.
Proof using Hacts.
  unfold emits, after. rewrite (_processLogEvent_run _ _ _ _ _ _ _ Hacts).
  rewrite <- fires_iff. simpl.
  destruct ((0 <? length messages)%nat && includes acts channel); simpl.
  - split; [reflexivity|]. intros _. eexists. reflexivity.
  - split; [|discriminate]. intros [r Hr].
    apply (f_equal length) in Hr. rewrite length_app in Hr. simpl in Hr. lia.
Qed.

Lemma _processLogEvent_silent outputFn channel messages logType :
  silent (logchannel_ts._processLogEvent unicode_upper outputFn channel messages
            logType) st
  <-> ~ (messages <> [] /\ channel ∈ acts).
Proof using Hacts.
  unfold silent, after. rewrite (_processLogEvent_run _ _ _ _ _ _ _ Hacts).
  rewrite <- fires_iff. simpl.
  destruct ((0 <? length messages)%nat && includes acts channel); simpl.
  - split; [|intros H; now destruct H]. intros Hr.
    apply (f_equal length) in Hr. rewrite length_app in Hr. simpl in Hr. lia.
  - split; [intros _; discriminate|reflexivity].
Qed.
End Gating.

(** C1. In a store whose active set is [acts], a call to [log], [error] or
    [debug] (of either file) sends a record to the console if and only if it
    was given at least one message and the channel string is an element of
    [acts], compared as it stands; otherwise the console is left as it was.
    In particular a channel that differs from its own trimmed form sends
    nothing when the active set holds nothing but that trimmed form. *)
Theorem C1_record_iff_messages_and_exact_member
    (unicode_upper : jsstring -> jsstring) (st : State) (acts : list jsstring)
    (channel : jsstring) (messages : list jsvalue) :
  active_set st = Some acts ->
  Forall (fun call : jsstring -> list jsvalue -> M unit =>
            (emits (call channel messages) st
               <-> messages <> [] /\ channel ∈ acts) /\
            (silent (call channel messages) st
               <-> ~ (messages <> [] /\ channel ∈ acts)) /\
            (trim channel <> channel ->
             (forall x, x ∈ acts -> x = trim channel) ->
             silent (call channel messages) st))
    [logchannel_ts.log unicode_upper; logchannel_ts.error unicode_upper;
     logchannel_ts.debug unicode_upper;
     part_000.log unicode_upper; part_000.error unicode_upper;
     part_000.debug unicode_upper].
Proof.
  intros Hacts.
  assert (H : forall outputFn logType,
             let call := fun c m =>
               logchannel_ts._processLogEvent unicode_upper outputFn c m logType in
             (emits (call channel messages) st
                <-> messages <> [] /\ channel ∈ acts) /\
             (silent (call channel messages) st
                <-> ~ (messages <> [] /\ channel ∈ acts)) /\
             (trim channel <> channel ->
              (forall x, x ∈ acts -> x = trim channel) ->
              silent (call channel messages) st)).
  { intros outputFn logType call. unfold call.
    split; [now apply _processLogEvent_emits|].
    split; [now apply _processLogEvent_silent|].
    intros Hws Honly. apply (_processLogEvent_silent _ _ _ Hacts).
    intros [_ Hin]. apply Honly in Hin. congruence. }
  pose proof (H console_log None) as Hlog.
  pose proof (H console_error (Some ERROR)) as Herror.
  pose proof (H console_debug (Some DEBUG)) as Hdebug.
  repeat (apply Forall_cons_2;
          [first [exact Hlog | exact Herror | exact Hdebug]|]).
  apply Forall_nil_2.
Qed.

Lemma C1_witness :
  silent (logchannel_ts.log no_table (js " net") [VString (js "x")]) st_net /\
  emits (logchannel_ts.error no_table (js "net") [VString (js "x")]) st_net.
Proof.
  split.
  - assert (Hw : active_set st_net = Some [js "net"]) by reflexivity.
    pose proof (C1_record_iff_messages_and_exact_member no_table st_net
                  [js "net"] (js " net") [VString (js "x")] Hw) as H.
    apply Forall_cons_1 in H. destruct H as [(_ & _ & H) _].
    apply H; [vm_compute; discriminate|].
    intros x Hx. apply list_elem_of_singleton in Hx. rewrite Hx. vm_compute. reflexivity.
  - assert (Hw : active_set st_net = Some [js "net"]) by reflexivity.
    pose proof (C1_record_iff_messages_and_exact_member no_table st_net
                  [js "net"] (js "net") [VString (js "x")] Hw) as H.
    apply Forall_cons_1 in H. destruct H as [_ H].
    apply Forall_cons_1 in H. destruct H as [(H & _) _].
    apply H. split; [discriminate|]. apply list_elem_of_singleton. reflexivity.
Defined.

(** ** Replacing the active set *)

(** C2. [setChannel] given an array assigns exactly that array's elements
    trimmed, with those that are empty after trimming dropped, in the same
    order and with duplicates kept; given a single string it assigns the
    one-element sequence of its trimmed form, or the empty sequence when that
    form is empty. The outcome does not depend on the active set before the
    call, and the caller's array is neither changed nor shared. *)
Theorem C2_setChannel_replaces_with_trimmed_kept (st : State) :
  (forall a xs,
     heap st !! a = Some xs ->
     exists st',
       logchannel_ts.setChannel (IsArray a) st = (Normal tt, st') /\
       active_set st' = Some (List.filter non_empty (map trim xs)) /\
       heap st' !! a = Some xs /\
       activeChannels st' <> Some a) /\
  (forall s,
     exists st',
       logchannel_ts.setChannel (IsString s) st = (Normal tt, st') /\
       active_set st' = Some (if non_empty (trim s) then [trim s] else [])).
Proof.
  split.
  - intros a xs Ha. pose proof (lookup_lt_Some _ _ _ Ha) as Hlt.
    eexists. split; [apply setChannel_array_run; exact Ha|].
    split; [apply active_set_fresh|]. simpl. split.
    + rewrite !lookup_old; [exact Ha|lia|rewrite length_app; simpl; lia].
    + rewrite length_app. simpl. intros [= H]. lia.
  - intros s. eexists. split; [apply setChannel_string_run|].
    apply active_set_fresh.
Qed.

Lemma C2_witness :
  (exists st',
     logchannel_ts.setChannel (IsArray 0%nat) st_xy = (Normal tt, st') /\
     active_set st' = Some [js "ok"]) /\
  (exists st',
     logchannel_ts.setChannel (IsString (js " z ")) st_xy = (Normal tt, st') /\
     active_set st' = Some [js "z"]).
Proof.
  destruct (C2_setChannel_replaces_with_trimmed_kept st_xy) as [Harr Hstr].
  split.
  - destruct (Harr 0%nat [js "  "; [0x09]; js "ok"] eq_refl)
      as (st' & Hrun & Hset & _).
    exists st'. split; [exact Hrun|exact Hset].
  - destruct (Hstr (js " z ")) as (st' & Hrun & Hset).
    exists st'. split; [exact Hrun|exact Hset].
Defined.

(** ** Initialization *)

(** C3, as the code has it. When [LOG_CHANNELS] is set, is not empty after
    trimming, and at least one piece survives, the active set becomes the
    value split on commas with each piece trimmed and the empty pieces
    dropped, order and duplicates kept; ["a, b ,c"] gives [["a","b","c"]]. *)
Theorem C3_env_value_split_trimmed_kept (st0 : State) :
  (forall (vars : jsstring -> option jsstring) (v : jsstring),
     vars (js "LOG_CHANNELS") = Some v ->
     trim v <> [] ->
     List.filter non_empty (map trim (split comma v)) <> [] ->
     exists st,
       logchannel_ts.initChannels (EnvVars vars) st0 = (Normal tt, st) /\
       active_set st = Some (List.filter non_empty (map trim (split comma v)))) /\
  active_set (after (logchannel_ts.initChannels (env_with (js "a, b ,c"))) st0)
    = Some [js "a"; js "b"; js "c"].
Proof.
  assert (Hgen : forall vars v,
            vars (js "LOG_CHANNELS") = Some v -> trim v <> [] ->
            List.filter non_empty (map trim (split comma v)) <> [] ->
            exists st,
              logchannel_ts.initChannels (EnvVars vars) st0 = (Normal tt, st) /\
              active_set st
                = Some (List.filter non_empty (map trim (split comma v)))).
  { intros vars v Hv Hne Hkept. eexists.
    split; [exact (initChannels_split_run vars v st0 Hv Hne)|].
    destruct (List.filter non_empty (map trim (split comma v))) eqn:Hk;
      [congruence|]. apply active_set_fresh. }
  split; [exact Hgen|].
  destruct (Hgen (fun name => if decide (name = js "LOG_CHANNELS")
                              then Some (js "a, b ,c") else None)
              (js "a, b ,c")) as (st & Hrun & Hset);
    [vm_compute; reflexivity|vm_compute; discriminate|vm_compute; discriminate|].
  unfold after, env_with. rewrite Hrun. exact Hset.
Qed.

Lemma C3_witness :
  exists st,
    logchannel_ts.initChannels (env_with (js "a, a ,,b")) unloaded = (Normal tt, st) /\
    active_set st = Some [js "a"; js "a"; js "b"].
Proof.
  refine (proj1 (C3_env_value_split_trimmed_kept unloaded) _ (js "a, a ,,b")
            _ _ _); vm_compute; first [reflexivity|discriminate].
Defined.

(** C3 as the specification words it fails: [","] is set and is not empty
    after trimming, yet the active set becomes [["default"]], not the (empty)
    sequence of its kept pieces. *)
Lemma C3_counterexample :
  let v := js "," in
  let st := after (logchannel_ts.initChannels (env_with v)) unloaded in
  trim v <> [] /\
  List.filter non_empty (map trim (split comma v)) = [] /\
  active_set st = Some [js "default"] /\
  active_set st <> Some (List.filter non_empty (map trim (split comma v))).
Proof. vm_compute. repeat split; discriminate. Qed.

(** C4. [initChannels], and with it the module body, completes normally
    whatever the environment does; and when access to the environment
    throws, the variable is unset, its value trims to the empty string, or no
    piece of it survives trimming, the active set is [["default"]]. *)
Theorem C4_init_total_and_default_when_degenerate
    (unicode_upper : jsstring -> jsstring) (deno : DenoEnv) (st0 : State) :
  exists st,
    logchannel_ts.initChannels deno st0 = (Normal tt, st) /\
    (exists L, logchannel_ts.LogChannel unicode_upper deno st0 = (Normal L, st)) /\
    (degenerate deno -> active_set st = Some [js "default"]).
Proof.
  destruct (LogChannel_run unicode_upper deno st0) as (st & Hinit & Hload).
  exists st. split; [exact Hinit|]. split; [eexists; exact Hload|].
  intros Hdeg.
  assert (Hdef : match deno with
                 | EnvFails _ => True
                 | EnvVars vars =>
                     match vars (js "LOG_CHANNELS") with
                     | None => True
                     | Some v => trim v = []
                     end
                 end -> active_set st = Some [js "default"]).
  { intros H. rewrite (initChannels_default_run deno st0 H) in Hinit.
    injection Hinit as <-. apply active_set_fresh. }
  destruct deno as [e|vars]; [now apply Hdef|]. simpl in Hdeg, Hdef.
  destruct (vars (js "LOG_CHANNELS")) as [v|] eqn:Hv; [|now apply Hdef].
  destruct (trim v) as [|c r] eqn:Ht; [now apply Hdef|].
  destruct Hdeg as [Hdeg|Hkept]; [discriminate|].
  assert (Hne : trim v <> []) by now rewrite Ht.
  rewrite (initChannels_split_run vars v st0 Hv Hne) in Hinit.
  rewrite Hkept in Hinit. injection Hinit as <-. apply active_set_fresh.
Qed.

Lemma C4_witness :
  degenerate (env_with (js " , ")) /\
  exists st,
    logchannel_ts.initChannels (env_with (js " , ")) unloaded = (Normal tt, st) /\
    active_set st = Some [js "default"].
Proof.
  assert (Hdeg : degenerate (env_with (js " , "))) by (right; reflexivity).
  split; [exact Hdeg|].
  destruct (C4_init_total_and_default_when_degenerate no_table
              (env_with (js " , ")) unloaded) as (st & Hrun & _ & Hset).
  exists st. split; [exact Hrun|exact (Hset Hdeg)].
Defined.

(** ** The record sent to the console *)

(** C5. A call that fires appends one entry to the console: for [log] a call
    of [console.log], for [error] of [console.error], for [debug] of
    [console.debug], whose first argument is the string ["[" + channel
    upper-cased + "]"], resp. with [":ERROR]"] and [":DEBUG]"] at its end,
    and whose other arguments are the messages as given, in their order.
    Heap and variable stay as they were. *)
Theorem C5_record_is_prefix_then_messages
    (unicode_upper : jsstring -> jsstring) (st : State) (acts : list jsstring)
    (channel : jsstring) (messages : list jsvalue) :
  active_set st = Some acts ->
  messages <> [] ->
  channel ∈ acts ->
  let sent outputFn prefix :=
    (Normal tt,
     mkState (heap st) (activeChannels st)
       (console st ++ [(outputFn, VString prefix :: messages)])) in
  logchannel_ts.log unicode_upper channel messages st
    = sent console_log (js "[" ++ toUpperCase unicode_upper channel ++ js "]") /\
  logchannel_ts.error unicode_upper channel messages st
    = sent console_error
        (js "[" ++ toUpperCase unicode_upper channel ++ js ":ERROR]") /\
  logchannel_ts.debug unicode_upper channel messages st
    = sent console_debug
        (js "[" ++ toUpperCase unicode_upper channel ++ js ":DEBUG]").
Proof.
  intros Hacts Hmsgs Hin sent.
  assert (Hfires : (0 <? length messages)%nat && includes acts channel = true)
    by now apply fires_iff.
  unfold logchannel_ts.log, logchannel_ts.error, logchannel_ts.debug.
  rewrite !(_processLogEvent_run _ _ _ _ _ _ _ Hacts), Hfires.
  repeat split.
Qed.

Lemma C5_witness :
  console (after (logchannel_ts.log no_table (js "net") [VString (js "x")]) st_net)
    = [(console_log, [VString (js "[NET]"); VString (js "x")])] /\
  console (after (logchannel_ts.error no_table (js "net") [VString (js "x")]) st_net)
    = [(console_error, [VString (js "[NET:ERROR]"); VString (js "x")])] /\
  console (after (logchannel_ts.debug no_table (js "net") [VString (js "x")]) st_net)
    = [(console_debug, [VString (js "[NET:DEBUG]"); VString (js "x")])].
Proof.
  assert (Hacts : active_set st_net = Some [js "net"]) by reflexivity.
  assert (Hmsgs : [VString (js "x")] <> []) by discriminate.
  assert (Hin : js "net" ∈ [js "net"]) by (apply list_elem_of_singleton; reflexivity).
  destruct (C5_record_is_prefix_then_messages no_table st_net [js "net"]
              (js "net") [VString (js "x")] Hacts Hmsgs Hin) as (Hl & He & Hd).
  unfold after. rewrite Hl, He, Hd. repeat split.
Defined.

(** ** The invariant of the active set *)

(** C6. In every world a client can bring about (the module loaded, then any
    calls of its functions, any arrays created and any held array mutated),
    the variable refers to an array each element of which is not empty after
    trimming; indeed each element is its own trimmed form and is not
    empty. *)
Theorem C6_active_elements_trimmed_non_empty
    (unicode_upper : jsstring -> jsstring) (deno : DenoEnv)
    (L : ILogChannel) (w : World) :
  reachable (logchannel_ts.LogChannel unicode_upper deno) L w ->
  exists acts,
    active_set (store w) = Some acts /\
    Forall (fun x => trim x <> [] /\ trim x = x /\ x <> []) acts.
Proof.
  intros Hreach.
  destruct (reachable_inv unicode_upper deno L w Hreach)
    as (_ & a & acts & Hv & Ha & Hacts & _).
  exists acts. split; [apply active_set_Some; eauto|].
  eapply Forall_impl; [exact Hacts|].
  intros x [Ht Hne]. rewrite Ht. auto.
Qed.

Lemma C6_witness :
  exists acts,
    active_set (store w_api) = Some acts /\
    Forall (fun x => trim x <> [] /\ trim x = x /\ x <> []) acts.
Proof.
  apply (C6_active_elements_trimmed_non_empty no_table (env_with (js "a,b"))
           api_object w_api).
  unfold w_api. apply reach_step; [|exact I].
  apply (reach_load _ [] [] api_object). reflexivity.
Defined.

(** ** The copy handed out *)

(** Mutating an array leaves every other array, the variable and the
    console as they are. *)
Lemma mutate_other_array (a copy : loc) (acts : list jsstring)
    (xss : list (list jsstring)) :
  copy <> a ->
  forall st,
    activeChannels st = Some a -> heap st !! a = Some acts ->
    is_Some (heap st !! copy) ->
    exists st',
      mutate copy xss st = (Normal tt, st') /\
      activeChannels st' = Some a /\ heap st' !! a = Some acts.
Proof.
  intros Hne. induction xss as [|xs rest IH]; intros st Hv Ha [ys Hys].
  - exists st. auto.
  - pose proof (lookup_lt_Some _ _ _ Hys) as Hlt.
    set (st1 := mkState (<[copy := xs]> (heap st)) (activeChannels st) (console st)).
    assert (Hcopy : heap st1 !! copy = Some xs)
      by now apply list_lookup_insert_eq.
    assert (Ha1 : heap st1 !! a = Some acts)
      by (simpl; now rewrite list_lookup_insert_ne).
    destruct (IH st1 Hv Ha1 (ex_intro _ _ Hcopy)) as (st' & Hrun & Hv' & Ha').
    exists st'. cbn [mutate].
    rewrite (bind_normal _ _ _ _ _ (write_array_run _ _ _ Hys xs)).
    auto.
Qed.

(** C7. [getActiveChannels] returns a reference to a new array with the
    elements of the active set; it is not the array the variable refers to,
    and however often and with whatever contents the returned array is then
    mutated, the active set stays what it was and the next call returns the
    same elements again. *)
Theorem C7_getActiveChannels_returns_isolated_copy
    (st : State) (acts : list jsstring) :
  active_set st = Some acts ->
  exists copy st1,
    logchannel_ts.getActiveChannels st = (Normal copy, st1) /\
    heap st1 !! copy = Some acts /\
    activeChannels st1 <> Some copy /\
    active_set st1 = Some acts /\
    forall xss,
      exists st2,
        mutate copy xss st1 = (Normal tt, st2) /\
        active_set st2 = Some acts /\
        exists copy2 st3,
          logchannel_ts.getActiveChannels st2 = (Normal copy2, st3) /\
          heap st3 !! copy2 = Some acts.
Proof.
  intros (a & Hv & Ha)%active_set_Some.
  pose proof (lookup_lt_Some _ _ _ Ha) as Hlt.
  eexists; eexists. split; [exact (getActiveChannels_run st a acts Hv Ha)|].
  cbn [heap activeChannels console].
  split; [apply lookup_fresh|]. split; [intros [= ->]; lia|].
  assert (Hold : (heap st ++ [acts]) !! a = Some acts) by now rewrite lookup_old.
  split; [apply active_set_Some; exists a; now split|].
  intros xss.
  destruct (mutate_other_array a (length (heap st)) acts xss)
    with (st := mkState (heap st ++ [acts]) (Some a) (console st))
    as (st2 & Hrun & Hv2 & Ha2);
    [lia|reflexivity|exact Hold|exists acts; apply lookup_fresh|].
  exists st2. split; [exact Hrun|].
  split; [apply active_set_Some; exists a; now split|].
  eexists; eexists. split; [exact (getActiveChannels_run st2 a acts Hv2 Ha2)|].
  apply lookup_fresh.
Qed.

Lemma C7_witness :
  exists copy st1,
    logchannel_ts.getActiveChannels st_xy = (Normal copy, st1) /\
    heap st1 !! copy = Some [js "x"; js "y"] /\
    exists st2,
      mutate copy [[js "x"]; []; [js "spoiled"]] st1 = (Normal tt, st2) /\
      active_set st2 = Some [js "x"; js "y"].
Proof.
  destruct (C7_getActiveChannels_returns_isolated_copy st_xy [js "x"; js "y"]
              eq_refl) as (copy & st1 & Hrun & Hcopy & _ & _ & Hwrite).
  exists copy, st1. split; [exact Hrun|]. split; [exact Hcopy|].
  destruct (Hwrite [[js "x"]; []; [js "spoiled"]]) as (st2 & Hw & Hset & _).
  exists st2. split; [exact Hw|exact Hset].
Defined.

(** ** What the other functions leave alone *)

(** C8. Whatever the store and the arguments, after a call of [log],
    [error], [debug] or [getActiveChannels] the variable refers to the array
    it referred to before, and that array has the elements it had. *)
Theorem C8_log_error_debug_get_keep_active_set
    (unicode_upper : jsstring -> jsstring) (st : State)
    (channel : jsstring) (messages : list jsvalue) :
  Forall (fun st' =>
            activeChannels st' = activeChannels st /\
            active_set st' = active_set st)
    [after (logchannel_ts.log unicode_upper channel messages) st;
     after (logchannel_ts.error unicode_upper channel messages) st;
     after (logchannel_ts.debug unicode_upper channel messages) st;
     after logchannel_ts.getActiveChannels st].
Proof.
  assert (Hlog : forall outputFn logType,
            let st' := after (logchannel_ts._processLogEvent unicode_upper outputFn
                                channel messages logType) st in
            activeChannels st' = activeChannels st /\
            active_set st' = active_set st).
  { intros outputFn logType.
    destruct (_processLogEvent_frame unicode_upper outputFn channel messages
                logType st) as [Hh Hv].
    cbv zeta. unfold active_set. now rewrite Hh, Hv. }
  repeat (apply Forall_cons_2; [apply Hlog|]).
  apply Forall_cons_2; [|apply Forall_nil_2].
  unfold after. destruct (active_set st) as [acts|] eqn:Hset.
  - pose proof Hset as (a & Hv & Ha)%active_set_Some.
    rewrite (getActiveChannels_run st a acts Hv Ha). simpl.
    split; [now rewrite Hv|].
    unfold active_set. simpl. rewrite lookup_old; [exact Ha|].
    now apply lookup_lt_Some in Ha.
  - rewrite (getActiveChannels_stuck st Hset). simpl. now rewrite Hset.
Qed.

(** ** The empty channel *)

(** C9. In every world a client can bring about, the empty string is not in
    the active set, and a call of [log], [error] or [debug] with the empty
    string as channel sends nothing to the console, whatever the
    messages. *)
Theorem C9_empty_channel_never_fires
    (unicode_upper : jsstring -> jsstring) (deno : DenoEnv)
    (L : ILogChannel) (w : World) (messages : list jsvalue) :
  reachable (logchannel_ts.LogChannel unicode_upper deno) L w ->
  (exists acts, active_set (store w) = Some acts /\ js "" ∉ acts) /\
  silent (log L (js "") messages) (store w) /\
  silent (error L (js "") messages) (store w) /\
  silent (debug L (js "") messages) (store w).
Proof.
  intros Hreach.
  destruct (reachable_inv unicode_upper deno L w Hreach)
    as (-> & a & acts & Hv & Ha & Hacts & _).
  assert (Hset : active_set (store w) = Some acts)
    by (apply active_set_Some; eauto).
  assert (Hnot : js "" ∉ acts).
  { intros Hin. rewrite Forall_forall in Hacts.
    destruct (Hacts _ Hin) as [_ Hne]. now apply Hne. }
  split; [now exists acts|].
  cbn [log error debug].
  unfold logchannel_ts.log, logchannel_ts.error, logchannel_ts.debug.
  repeat split; apply (_processLogEvent_silent unicode_upper _ _ Hset);
    intros [_ Hin]; now apply Hnot.
Qed.

Lemma C9_witness :
  silent (log api_object (js "") [VString (js "x")]) (store w_api).
Proof.
  apply (C9_empty_channel_never_fires no_table (env_with (js "a,b"))
           api_object w_api [VString (js "x")]).
  unfold w_api. apply reach_step; [|exact I].
  apply (reach_load _ [] [] api_object). reflexivity.
Defined.

(** ** The two files *)

(** C10. Loaded in the same store under the same environment and driven by
    the same client, the module of [src/logchannel.ts] and the module of
    [src/unnamed/part_000] complete alike, return the same values call by
    call, and leave the same store: the same heap, the same active set, and
    the same entries on the same console functions. *)
Theorem C10_both_files_behave_alike
    (unicode_upper : jsstring -> jsstring) (deno : DenoEnv)
    (acts : list Action) (h : Heap) (out : Console) :
  session (logchannel_ts.LogChannel unicode_upper deno) acts h out
  = session (part_000.LogChannel unicode_upper deno) acts h out.
Proof.
  destruct part_000_same as (_ & _ & _ & _ & _ & _ & _ & ->). reflexivity.
Qed.

(** * Further properties of the module *)

(** ** More runs *)

Lemma setChannel_array_dangling st a :
  heap st !! a = None ->
  logchannel_ts.setChannel (IsArray a) st = (Throw TypeError, st).
Proof.
  intros H. unfold logchannel_ts.setChannel, Array_map.
  erewrite bind_throw; [reflexivity|].
  erewrite bind_throw; [reflexivity|].
  unfold read_array. now rewrite H.
Qed.

Lemma kept_of_trimmed_non_empty (acts : list jsstring) :
  Forall trimmed_non_empty acts ->
  List.filter non_empty (map trim acts) = acts.
Proof.
  induction 1 as [|x acts [Ht Hne] _ IH]; [reflexivity|].
  simpl. rewrite Ht, IH.
  now apply non_empty_true in Hne as ->.
Qed.

(** ** No call of a loaded module throws *)

(** X1. In every world a client can bring about, every action the client
    may take completes normally: no call of [setChannel], [log], [error],
    [debug] or [getActiveChannels] throws, whatever its arguments. *)
Theorem X1_permitted_actions_complete
    (unicode_upper : jsstring -> jsstring) (deno : DenoEnv)
    (L : ILogChannel) (w : World) (act : Action) :
  reachable (logchannel_ts.LogChannel unicode_upper deno) L w ->
  may w act ->
  exists r st', perform L act (store w) = (Normal r, st').
Proof.
  intros Hreach Hmay.
  destruct (reachable_inv unicode_upper deno L w Hreach)
    as (-> & Hinv).
  pose proof Hinv as (a & acts & Hv & Ha & Hacts & Hfresh & Hheld).
  rewrite Forall_forall in Hheld.
  destruct act as [[s|b]|ch ms|ch ms|ch ms| |xs|b xs];
    unfold perform, exported; cbn [setChannel log error debug getActiveChannels].
  - rewrite (bind_normal _ _ _ _ _ (setChannel_string_run _ _)).
    eexists; eexists; reflexivity.
  - destruct (lookup_lt_is_Some_2 _ _ (Hheld _ Hmay)) as [xs Hxs].
    rewrite (bind_normal _ _ _ _ _ (setChannel_array_run _ _ _ Hxs)).
    eexists; eexists; reflexivity.
  - destruct (log_step unicode_upper console_log ch ms None w Hinv)
      as (st' & Hrun & _).
    unfold logchannel_ts.log. rewrite (bind_normal _ _ _ _ _ Hrun).
    eexists; eexists; reflexivity.
  - destruct (log_step unicode_upper console_error ch ms (Some ERROR) w Hinv)
      as (st' & Hrun & _).
    unfold logchannel_ts.error. rewrite (bind_normal _ _ _ _ _ Hrun).
    eexists; eexists; reflexivity.
  - destruct (log_step unicode_upper console_debug ch ms (Some DEBUG) w Hinv)
      as (st' & Hrun & _).
    unfold logchannel_ts.debug. rewrite (bind_normal _ _ _ _ _ Hrun).
    eexists; eexists; reflexivity.
  - rewrite (bind_normal _ _ _ _ _ (getActiveChannels_run _ _ _ Hv Ha)).
    eexists; eexists; reflexivity.
  - eexists; eexists; reflexivity.
  - destruct (lookup_lt_is_Some_2 _ _ (Hheld _ Hmay)) as [ys Hys].
    rewrite (bind_normal _ _ _ _ _ (write_array_run _ _ _ Hys _)).
    eexists; eexists; reflexivity.
Qed.

Lemma X1_witness :
  exists r st', perform api_object call_getActiveChannels (store w_api) = (Normal r, st').
Proof.
  apply (X1_permitted_actions_complete no_table (env_with (js "a,b"))
           api_object w_api call_getActiveChannels); [|exact I].
  unfold w_api. apply reach_step; [|exact I].
  apply (reach_load _ [] [] api_object). reflexivity.
Defined.

(** ** Where the active set changes *)

(** X2. Along any run of a client the active set changes at calls of
    [setChannel] only: every other action the client may take, the mutation
    of any array it holds included, leaves the active set as it was. *)
Theorem X2_active_set_changes_at_setChannel_only
    (unicode_upper : jsstring -> jsstring) (deno : DenoEnv)
    (L : ILogChannel) (w : World) (act : Action) :
  reachable (logchannel_ts.LogChannel unicode_upper deno) L w ->
  may w act ->
  (forall channels, act <> call_setChannel channels) ->
  active_set (store (step L act w)) = active_set (store w).
Proof.
  intros Hreach Hmay Hnot.
  destruct (reachable_inv unicode_upper deno L w Hreach)
    as (-> & Hinv).
  pose proof Hinv as (a & acts & Hv & Ha & Hacts & Hfresh & Hheld).
  pose proof (lookup_lt_Some _ _ _ Ha) as Hlt.
  rewrite Forall_forall in Hheld.
  assert (Hlog : forall outputFn logType ch ms,
            active_set
              (store
                 (match (logchannel_ts._processLogEvent unicode_upper outputFn ch ms
                           logType ≫= λ _ : (), mret None) (store w) with
                  | (Normal (Some a1), st) => mkWorld st (a1 :: held w)
                  | (_, st) => mkWorld st (held w)
                  end)) = active_set (store w)).
  { intros outputFn logType ch ms.
    destruct (log_step unicode_upper outputFn ch ms logType w Hinv)
      as (st' & Hrun & _).
    rewrite (bind_normal _ _ _ _ _ Hrun). unfold mret, M_ret. cbn [store].
    pose proof (_processLogEvent_frame unicode_upper outputFn ch ms logType
                  (store w)) as Hframe.
    unfold after in Hframe. rewrite Hrun in Hframe. destruct Hframe as [Hh Hvar].
    unfold active_set. cbn [snd] in Hh, Hvar. now rewrite Hh, Hvar. }
  destruct act as [c|ch ms|ch ms|ch ms| |xs|b xs]; unfold step, perform, exported;
    cbn [setChannel log error debug getActiveChannels].
  - now destruct (Hnot c).
  - apply Hlog.
  - apply Hlog.
  - apply Hlog.
  - rewrite (bind_normal _ _ _ _ _ (getActiveChannels_run _ _ _ Hv Ha)).
    unfold mret, M_ret, active_set. cbn [store heap activeChannels].
    rewrite Hv. simpl. now rewrite lookup_old.
  - erewrite bind_normal; [|reflexivity].
    unfold mret, M_ret, active_set. cbn [store heap activeChannels].
    rewrite Hv. simpl. now rewrite lookup_old.
  - destruct (lookup_lt_is_Some_2 _ _ (Hheld _ Hmay)) as [ys Hys].
    rewrite (bind_normal _ _ _ _ _ (write_array_run _ _ _ Hys _)).
    unfold mret, M_ret, active_set. cbn [store heap activeChannels].
    rewrite Hv. simpl. rewrite list_lookup_insert_ne; [reflexivity|].
    intros ->. now apply Hfresh.
Qed.

Lemma X2_witness :
  active_set (store (step api_object call_getActiveChannels w_api))
  = active_set (store w_api).
Proof.
  apply (X2_active_set_changes_at_setChannel_only no_table (env_with (js "a,b"))
           api_object w_api call_getActiveChannels); [|exact I|discriminate].
  unfold w_api. apply reach_step; [|exact I].
  apply (reach_load _ [] [] api_object). reflexivity.
Defined.

(** ** [setChannel] and the caller's array *)

(** X3. [setChannel] keeps no reference to the array it is given: after the
    call, however the caller mutates that array, the active set remains the
    trimmed, kept elements the array had at the call. *)
Theorem X3_setChannel_keeps_no_reference_to_argument
    (st : State) (a : loc) (xs : list jsstring) (xss : list (list jsstring)) :
  heap st !! a = Some xs ->
  exists st1 st2,
    logchannel_ts.setChannel (IsArray a) st = (Normal tt, st1) /\
    mutate a xss st1 = (Normal tt, st2) /\
    active_set st2 = Some (List.filter non_empty (map trim xs)).
Proof.
  intros Ha. pose proof (lookup_lt_Some _ _ _ Ha) as Hlt.
  eexists. 
  destruct (mutate_other_array (length (heap st ++ [map trim xs])) a
              (List.filter non_empty (map trim xs)) xss)
    with (st := mkState
                  ((heap st ++ [map trim xs]) ++ [List.filter non_empty (map trim xs)])
                  (Some (length (heap st ++ [map trim xs]))) (console st))
    as (st2 & Hrun & Hv2 & Ha2).
  - rewrite length_app. simpl. lia.
  - reflexivity.
  - apply lookup_fresh.
  - exists xs. cbn [heap].
    rewrite !lookup_old; [exact Ha|lia|rewrite length_app; simpl; lia].
  - exists st2. split; [exact (setChannel_array_run st a xs Ha)|].
    split; [exact Hrun|]. apply active_set_Some. eauto.
Qed.

Lemma X3_witness :
  exists st1 st2,
    logchannel_ts.setChannel (IsArray 0%nat) st_xy = (Normal tt, st1) /\
    mutate 0%nat [[js "other"]; []] st1 = (Normal tt, st2) /\
    active_set st2 = Some [js "ok"].
Proof.
  exact (X3_setChannel_keeps_no_reference_to_argument st_xy 0%nat
           [js "  "; [0x09]; js "ok"] [[js "other"]; []] eq_refl).
Defined.

(** X4. Reading the active set and giving it back changes nothing: in every
    world a client can bring about, [setChannel] called with the array
    [getActiveChannels] has just returned leaves the active set as it
    was. *)
Theorem X4_setChannel_of_getActiveChannels_is_identity
    (unicode_upper : jsstring -> jsstring) (deno : DenoEnv)
    (L : ILogChannel) (w : World) :
  reachable (logchannel_ts.LogChannel unicode_upper deno) L w ->
  exists copy st1 st2,
    getActiveChannels L (store w) = (Normal copy, st1) /\
    setChannel L (IsArray copy) st1 = (Normal tt, st2) /\
    active_set st2 = active_set (store w).
Proof.
  intros Hreach.
  destruct (reachable_inv unicode_upper deno L w Hreach)
    as (-> & a & acts & Hv & Ha & Hacts & _).
  unfold exported; cbn [setChannel getActiveChannels].
  eexists; eexists; eexists.
  split; [exact (getActiveChannels_run _ a acts Hv Ha)|].
  split; [apply setChannel_array_run; cbn [heap]; apply lookup_fresh|].
  rewrite active_set_fresh, (kept_of_trimmed_non_empty acts Hacts).
  symmetry. apply active_set_Some. eauto.
Qed.

Lemma X4_witness :
  exists copy st1 st2,
    getActiveChannels api_object (store w_api) = (Normal copy, st1) /\
    setChannel api_object (IsArray copy) st1 = (Normal tt, st2) /\
    active_set st2 = active_set (store w_api).
Proof.
  apply (X4_setChannel_of_getActiveChannels_is_identity no_table
           (env_with (js "a,b")) api_object w_api).
  unfold w_api. apply reach_step; [|exact I].
  apply (reach_load _ [] [] api_object). reflexivity.
Defined.

(** X5. A single string is the same as the array holding just that string:
    the two branches of [setChannel] assign the same active set. *)
Theorem X5_setChannel_string_same_as_singleton_array
    (st : State) (s : jsstring) (a : loc) :
  heap st !! a = Some [s] ->
  active_set (after (logchannel_ts.setChannel (IsArray a)) st)
  = active_set (after (logchannel_ts.setChannel (IsString s)) st).
Proof.
  intros Ha. unfold after.
  rewrite (setChannel_array_run st a [s] Ha), (setChannel_string_run st s).
  cbn [snd]. rewrite !active_set_fresh. simpl.
  now destruct (non_empty (trim s)).
Qed.

Lemma X5_witness :
  active_set (after (logchannel_ts.setChannel (IsArray 0%nat)) st_net)
  = active_set (after (logchannel_ts.setChannel (IsString (js "net"))) st_net).
Proof.
  exact (X5_setChannel_string_same_as_singleton_array st_net (js "net") 0%nat
           eq_refl).
Defined.

(** ** An empty active set *)

(** X6. [setChannel] with a string that trims to nothing, or with an array
    all of whose elements trim to nothing, leaves no channel active: after
    it, no call of [log], [error] or [debug] sends anything, whatever its
    channel and messages. *)
Theorem X6_blank_setChannel_silences_all
    (unicode_upper : jsstring -> jsstring) (st : State) (channels : StringOrArray)
    (channel : jsstring) (messages : list jsvalue) :
  match channels with
  | IsString s => trim s = []
  | IsArray a => exists xs, heap st !! a = Some xs /\ Forall (fun x => trim x = []) xs
  end ->
  exists st',
    logchannel_ts.setChannel channels st = (Normal tt, st') /\
    active_set st' = Some [] /\
    silent (logchannel_ts.log unicode_upper channel messages) st' /\
    silent (logchannel_ts.error unicode_upper channel messages) st' /\
    silent (logchannel_ts.debug unicode_upper channel messages) st'.
Proof.
  intros Hblank.
  assert (Hset : exists st',
             logchannel_ts.setChannel channels st = (Normal tt, st') /\
             active_set st' = Some []).
  { destruct channels as [s|a].
    - eexists. split; [apply setChannel_string_run|].
      rewrite active_set_fresh, Hblank. reflexivity.
    - destruct Hblank as (xs & Ha & Hxs).
      eexists. split; [exact (setChannel_array_run st a xs Ha)|].
      rewrite active_set_fresh. f_equal. clear Ha.
      induction Hxs as [|x xs Hx _ IH]; [reflexivity|].
      simpl. rewrite Hx. simpl. exact IH. }
  destruct Hset as (st' & Hrun & Hset). exists st'.
  split; [exact Hrun|]. split; [exact Hset|].
  unfold logchannel_ts.log, logchannel_ts.error, logchannel_ts.debug.
  repeat split; apply (_processLogEvent_silent unicode_upper _ _ Hset);
    intros [_ Hin]; inversion Hin.
Qed.

Lemma X6_witness :
  exists st',
    logchannel_ts.setChannel (IsString (js "  ")) st_net = (Normal tt, st') /\
    active_set st' = Some [] /\
    silent (logchannel_ts.log no_table (js "net") (one (js "x"))) st'.
Proof.
  destruct (X6_blank_setChannel_silences_all no_table st_net (IsString (js "  "))
              (js "net") (one (js "x")) eq_refl) as (st' & Hrun & Hset & Hlog & _).
  exists st'. split; [exact Hrun|]. split; [exact Hset|exact Hlog].
Defined.

(** ** More on strings *)

Section SplitFacts.
Variable sep : code_unit.
Implicit Types s x : jsstring.

Lemma split_pieces_no_sep s : Forall (fun p => sep ∉ p) (split sep s).
Proof.
  induction s as [|c s IH]; simpl.
  - repeat constructor. intros H. inversion H.
  - destruct (N.eqb_spec c sep) as [->|Hne].
    + constructor; [intros H; inversion H|exact IH].
    + destruct (split sep s) as [|p ps]; [repeat constructor|].
      * intros H. apply list_elem_of_singleton in H. congruence.
      * inversion IH as [|? ? Hp Hps]; subst. constructor; [|exact Hps].
        intros H. apply elem_of_cons in H. destruct H as [H|H]; [congruence|].
        now apply Hp.
Qed.

Lemma split_whole x : sep ∉ x -> split sep x = [x].
Proof.
  induction x as [|c x IH]; intros Hx; simpl; [reflexivity|].
  apply not_elem_of_cons in Hx. destruct Hx as [Hc Hx].
  destruct (N.eqb_spec c sep) as [->|_]; [congruence|].
  now rewrite (IH Hx).
Qed.

Lemma split_first x s : sep ∉ x -> split sep (x ++ sep :: s) = x :: split sep s.
Proof.
  induction x as [|c x IH]; intros Hx; simpl.
  - now rewrite N.eqb_refl.
  - apply not_elem_of_cons in Hx. destruct Hx as [Hc Hx].
    destruct (N.eqb_spec c sep) as [->|_]; [congruence|].
    now rewrite (IH Hx).
Qed.

Lemma split_join (xs : list jsstring) :
  xs <> [] -> Forall (fun x => sep ∉ x) xs -> split sep (join sep xs) = xs.
Proof.
  intros Hne Hxs. induction Hxs as [|x xs Hx Hxs IH]; [congruence|].
  destruct xs as [|y ys].
  - simpl. now apply split_whole.
  - change (join sep (x :: y :: ys)) with (x ++ sep :: join sep (y :: ys)).
    rewrite (split_first _ _ Hx), IH; [reflexivity|discriminate].
Qed.
End SplitFacts.

Lemma trimStart_within (s : jsstring) (c : code_unit) :
  c ∈ trimStart s -> c ∈ s.
Proof.
  induction s as [|d s IH]; simpl; [trivial|].
  destruct (is_white_space d); [|trivial].
  intros H. right. now apply IH.
Qed.

Lemma trimEnd_within (s : jsstring) (c : code_unit) :
  c ∈ trimEnd s -> c ∈ s.
Proof.
  induction s as [|d s IH]; simpl; [trivial|].
  destruct (trimEnd s) as [|e r].
  - destruct (is_white_space d); intros H; [inversion H|].
    apply list_elem_of_singleton in H. subst. left.
  - intros H. apply elem_of_cons in H. destruct H as [->|H]; [left|].
    right. now apply IH.
Qed.

Lemma trim_within (s : jsstring) (c : code_unit) : c ∈ trim s -> c ∈ s.
Proof. intros H. now apply trimStart_within, trimEnd_within. Qed.

Lemma trimmed_head (x : jsstring) :
  trimmed_non_empty x -> exists c r, x = c :: r /\ is_white_space c = false.
Proof.
  intros [Ht Hne]. unfold trim in Ht.
  destruct (trimStart x) as [|c r] eqn:Hs; [simpl in Ht; congruence|].
  pose proof (trimStart_head _ _ _ Hs) as Hc.
  destruct (trimEnd_keeps_head c r Hc) as [r' Hr']. rewrite Hr' in Ht.
  exists c, r'. now split.
Qed.

Lemma trim_keeps_head (c : code_unit) (r : jsstring) :
  is_white_space c = false -> trim (c :: r) <> [].
Proof.
  intros Hc. unfold trim. rewrite (trimStart_fixed _ _ Hc).
  destruct (trimEnd_keeps_head c r Hc) as [r' ->]. discriminate.
Qed.

Lemma join_starts_clean (xs : list jsstring) :
  xs <> [] -> Forall trimmed_non_empty xs -> trim (join comma xs) <> [].
Proof.
  intros Hne Hxs. destruct Hxs as [|x xs Hx _]; [congruence|].
  destruct (trimmed_head x Hx) as (c & r & -> & Hc).
  destruct xs; simpl; now apply trim_keeps_head.
Qed.

(** ** More on initialization *)

(** What [initChannels] assigns: the default set, or the kept pieces of the
    value when there are any. *)
Lemma initChannels_result deno st0 :
  exists st acts,
    logchannel_ts.initChannels deno st0 = (Normal tt, st) /\
    active_set st = Some acts /\
    (acts = [js "default"] \/
     exists vars v,
       deno = EnvVars vars /\ vars (js "LOG_CHANNELS") = Some v /\
       acts <> [] /\
       acts = List.filter non_empty (map trim (split comma v))).
Proof.
  assert (Hdef : match deno with
                 | EnvFails _ => True
                 | EnvVars vars =>
                     match vars (js "LOG_CHANNELS") with
                     | None => True
                     | Some v => trim v = []
                     end
                 end ->
            exists st acts,
              logchannel_ts.initChannels deno st0 = (Normal tt, st) /\
              active_set st = Some acts /\
              (acts = [js "default"] \/
               exists vars v,
                 deno = EnvVars vars /\ vars (js "LOG_CHANNELS") = Some v /\
                 acts <> [] /\
                 acts = List.filter non_empty (map trim (split comma v)))).
  { intros H. eexists; eexists.
    split; [exact (initChannels_default_run deno st0 H)|].
    split; [apply active_set_fresh|now left]. }
  destruct deno as [e|vars]; [now apply Hdef|].
  destruct (vars (js "LOG_CHANNELS")) as [v|] eqn:Hv; [|now apply Hdef].
  destruct (trim v) as [|c r] eqn:Ht; [now apply Hdef|].
  assert (Hne : trim v <> []) by now rewrite Ht.
  pose proof (initChannels_split_run vars v st0 Hv Hne) as Hrun.
  cbv zeta in Hrun.
  destruct (List.filter non_empty (map trim (split comma v))) as [|k ks] eqn:Hk;
    eexists; eexists; (split; [exact Hrun|]); (split; [apply active_set_fresh|]).
  - now left.
  - right. exists vars, v.
    repeat split; first [reflexivity|assumption|discriminate|symmetry; exact Hk].
Qed.

(** X7. Whatever the environment, loading the module leaves at least one
    channel active: the active set after [initChannels] is never empty
    (only [setChannel] can make it so). *)
Theorem X7_init_leaves_a_channel_active (deno : DenoEnv) (st0 : State) :
  exists st acts,
    logchannel_ts.initChannels deno st0 = (Normal tt, st) /\
    active_set st = Some acts /\
    acts <> [].
Proof.
  destruct (initChannels_result deno st0)
    as (st & acts & Hrun & Hset & [->|(vars & v & _ & _ & Hne & _)]);
    exists st; eexists; (split; [exact Hrun|]); (split; [exact Hset|]);
    [discriminate|exact Hne].
Qed.

(** X8. No channel name taken from [LOG_CHANNELS] contains a comma: after
    [initChannels] every element of the active set is free of commas,
    whatever the environment. *)
Theorem X8_init_names_have_no_comma (deno : DenoEnv) (st0 : State) :
  exists st acts,
    logchannel_ts.initChannels deno st0 = (Normal tt, st) /\
    active_set st = Some acts /\
    Forall (fun x => comma ∉ x) acts.
Proof.
  destruct (initChannels_result deno st0)
    as (st & acts & Hrun & Hset & [->|(vars & v & _ & _ & _ & ->)]);
    exists st; eexists; (split; [exact Hrun|]); (split; [exact Hset|]).
  - repeat constructor. vm_compute. intros H.
    repeat (apply elem_of_cons in H; destruct H as [H|H]; [discriminate|]).
    inversion H.
  - apply Forall_forall. intros x Hx.
    apply list_elem_of_In, filter_In in Hx. destruct Hx as [Hin _].
    apply in_map_iff in Hin. destruct Hin as (p & <- & Hp).
    pose proof (split_pieces_no_sep comma v) as Hsplit.
    rewrite Forall_forall in Hsplit. apply list_elem_of_In in Hp.
    intros Hc. apply (Hsplit p Hp). now apply trim_within.
Qed.

(** X9. Writing a list of channel names into [LOG_CHANNELS] and loading the
    module gives the list back: for a non-empty list of names that are each
    trimmed, not empty and free of commas, [initChannels] on the names
    joined by commas makes exactly that list the active set. *)
Theorem X9_init_of_joined_names_is_the_names
    (vars : jsstring -> option jsstring) (xs : list jsstring) (st0 : State) :
  xs <> [] ->
  Forall clean_name xs ->
  vars (js "LOG_CHANNELS") = Some (join comma xs) ->
  exists st,
    logchannel_ts.initChannels (EnvVars vars) st0 = (Normal tt, st) /\
    active_set st = Some xs.
Proof.
  intros Hne Hclean Hv.
  assert (Htrimmed : Forall trimmed_non_empty xs)
    by (eapply Forall_impl; [exact Hclean|]; now intros x [H _]).
  assert (Hcomma : Forall (fun x => comma ∉ x) xs)
    by (eapply Forall_impl; [exact Hclean|]; now intros x [_ H]).
  pose proof (join_starts_clean xs Hne Htrimmed) as Hjoin.
  eexists. split; [exact (initChannels_split_run vars _ st0 Hv Hjoin)|].
  rewrite (split_join comma xs Hne Hcomma), (kept_of_trimmed_non_empty xs Htrimmed).
  destruct xs; [congruence|]. apply active_set_fresh.
Qed.

Lemma X9_witness :
  exists st,
    logchannel_ts.initChannels (env_with (js "default,api,worker")) unloaded
      = (Normal tt, st) /\
    active_set st = Some [js "default"; js "api"; js "worker"].
Proof.
  apply (X9_init_of_joined_names_is_the_names
           (fun name => if decide (name = js "LOG_CHANNELS")
                        then Some (js "default,api,worker") else None)
           [js "default"; js "api"; js "worker"] unloaded).
  - discriminate.
  - repeat constructor; try (vm_compute; reflexivity); try discriminate;
      vm_compute; intros H;
      repeat (apply elem_of_cons in H; destruct H as [H|H]; [discriminate|]);
      inversion H.
  - vm_compute. reflexivity.
Defined.

(** ** What the functions leave alone *)

(** X10. Only [log], [error] and [debug] write to the console:
    [initChannels], [setChannel] and [getActiveChannels] leave it as it was,
    whatever the store and the arguments, also when they throw. *)
Theorem X10_init_set_get_never_print
    (deno : DenoEnv) (channels : StringOrArray) (st : State) :
  silent (logchannel_ts.initChannels deno) st /\
  silent (logchannel_ts.setChannel channels) st /\
  silent logchannel_ts.getActiveChannels st.
Proof.
  unfold silent, after. repeat split.
  - destruct (initChannels_shape deno st) as (cells & acts & -> & _). reflexivity.
  - destruct channels as [s|a].
    + now rewrite setChannel_string_run.
    + destruct (heap st !! a) as [xs|] eqn:Ha.
      * now rewrite (setChannel_array_run st a xs Ha).
      * now rewrite (setChannel_array_dangling st a Ha).
  - destruct (active_set st) as [acts|] eqn:Hset.
    + pose proof Hset as (a & Hv & Ha)%active_set_Some.
      now rewrite (getActiveChannels_run st a acts Hv Ha).
    + now rewrite (getActiveChannels_stuck st Hset).
Qed.

(** X11. No function of the module changes an array that exists: after
    [initChannels], [setChannel], [log], [error], [debug] or
    [getActiveChannels], whatever the store and the arguments, every array
    has the elements it had before; the functions only create arrays. *)
Theorem X11_existing_arrays_keep_their_elements
    (unicode_upper : jsstring -> jsstring) (deno : DenoEnv)
    (channels : StringOrArray) (channel : jsstring) (messages : list jsvalue)
    (st : State) :
  Forall (fun st' => forall a xs, heap st !! a = Some xs -> heap st' !! a = Some xs)
    [after (logchannel_ts.initChannels deno) st;
     after (logchannel_ts.setChannel channels) st;
     after (logchannel_ts.log unicode_upper channel messages) st;
     after (logchannel_ts.error unicode_upper channel messages) st;
     after (logchannel_ts.debug unicode_upper channel messages) st;
     after logchannel_ts.getActiveChannels st].
Proof.
  assert (Hlog : forall outputFn logType a xs,
            heap st !! a = Some xs ->
            heap (after (logchannel_ts._processLogEvent unicode_upper outputFn
                           channel messages logType) st) !! a = Some xs).
  { intros outputFn logType a xs Ha.
    destruct (_processLogEvent_frame unicode_upper outputFn channel messages
                logType st) as [Hh _].
    cbv zeta in Hh. now rewrite Hh. }
  unfold after.
  apply Forall_cons_2.
  { destruct (initChannels_shape deno st) as (cells & acts & -> & _).
    intros a xs Ha. cbn [snd heap]. rewrite <- app_assoc.
    now apply lookup_app_l_Some. }
  apply Forall_cons_2.
  { intros b xs Hb. destruct channels as [s|a].
    - rewrite setChannel_string_run. cbn [snd heap]. now apply lookup_app_l_Some.
    - destruct (heap st !! a) as [ys|] eqn:Ha.
      + rewrite (setChannel_array_run st a ys Ha). cbn [snd heap].
        rewrite <- app_assoc. now apply lookup_app_l_Some.
      + now rewrite (setChannel_array_dangling st a Ha). }
  repeat (apply Forall_cons_2; [apply Hlog|]).
  apply Forall_cons_2; [|apply Forall_nil_2].
  intros b xs Hb. destruct (active_set st) as [acts|] eqn:Hset.
  - pose proof Hset as (a & Hv & Ha)%active_set_Some.
    rewrite (getActiveChannels_run st a acts Hv Ha). cbn [snd heap].
    now apply lookup_app_l_Some.
  - now rewrite (getActiveChannels_stuck st Hset).
Qed.

Lemma X11_witness :
  heap (after (logchannel_ts.setChannel (IsArray 0%nat)) st_xy) !! 0%nat
  = Some [js "  "; [0x09]; js "ok"].
Proof.
  pose proof (X11_existing_arrays_keep_their_elements no_table (EnvFails VNull)
                (IsArray 0%nat) (js "x") [] st_xy) as H.
  apply Forall_cons_1 in H. destruct H as [_ H].
  apply Forall_cons_1 in H. destruct H as [H _].
  apply H. reflexivity.
Defined.

(** ** Logging call after logging call *)

(** X12. A run of logging calls sends to the console, in the order of the
    calls, one entry for each call that has a message and an active
    channel, and nothing else; every call completes normally and returns
    nothing, and heap and variable stay as they were. *)
Theorem X12_logging_calls_append_in_call_order
    (unicode_upper : jsstring -> jsstring) (acts : list jsstring)
    (actions : list Action) (st : State) :
  active_set st = Some acts ->
  Forall is_logging actions ->
  let result := run (exported unicode_upper) actions st in
  result.1 = map (fun _ => Normal None) actions /\
  heap result.2 = heap st /\
  activeChannels result.2 = activeChannels st /\
  console result.2
    = console st ++ concat (map (entries_of unicode_upper acts) actions).
Proof.
  intros Hset Hall. revert st Hset.
  induction Hall as [|act actions Hact _ IH]; intros st Hset.
  - simpl. now rewrite app_nil_r.
  - assert (Hone : exists st1,
               perform (exported unicode_upper) act st = (Normal None, st1) /\
               heap st1 = heap st /\ activeChannels st1 = activeChannels st /\
               console st1 = console st ++ entries_of unicode_upper acts act).
    { destruct act as [c|ch ms|ch ms|ch ms| |xs|b xs]; try now destruct Hact.
      all: unfold perform, exported; cbn [log error debug];
        unfold logchannel_ts.log, logchannel_ts.error, logchannel_ts.debug;
        rewrite (bind_normal _ _ _ _ _
                   (_processLogEvent_run unicode_upper _ ch ms _ st acts Hset));
        eexists; (split; [reflexivity|]); unfold entries_of;
        destruct ((0 <? length ms)%nat && includes acts ch); cbn [heap activeChannels console];
        rewrite ?app_nil_r; auto. }
    destruct Hone as (st1 & Hrun & Hh & Hv & Hc).
    assert (Hset1 : active_set st1 = Some acts).
    { unfold active_set in *. now rewrite Hh, Hv. }
    specialize (IH st1 Hset1). cbv zeta in IH.
    cbv zeta. cbn [run]. rewrite Hrun.
    destruct (run (exported unicode_upper) actions st1) as [cs st2].
    cbn [fst snd] in *. destruct IH as (-> & Hh2 & Hv2 & Hc2).
    rewrite Hh2, Hv2, Hc2, Hh, Hv, Hc. cbn [map concat].
    now rewrite app_assoc.
Qed.

Lemma X12_witness :
  console
    (run (exported no_table)
       [call_error (js "net") (one (js "e"));
        call_log (js "api") (one (js "no"));
        call_log (js "net") [];
        call_debug (js "net") (one (js "d"))] st_net).2
  = [(console_error, [VString (js "[NET:ERROR]"); VString (js "e")]);
     (console_debug, [VString (js "[NET:DEBUG]"); VString (js "d")])].
Proof.
  refine (proj2 (proj2 (proj2
            (X12_logging_calls_append_in_call_order no_table [js "net"] _ st_net
               eq_refl _)))).
  repeat constructor.
Defined.

(** X13. Which calls are logged depends on which names the array given to
    [setChannel] contains, not on their order or on repetitions: after
    [setChannel] with two arrays that have the same elements, the same
    logging calls send a record. *)
Theorem X13_order_and_repetition_do_not_matter
    (unicode_upper : jsstring -> jsstring) (st1 st2 : State) (a1 a2 : loc)
    (xs ys : list jsstring) (channel : jsstring) (messages : list jsvalue) :
  heap st1 !! a1 = Some xs ->
  heap st2 !! a2 = Some ys ->
  (forall x, x ∈ xs <-> x ∈ ys) ->
  let s1 := after (logchannel_ts.setChannel (IsArray a1)) st1 in
  let s2 := after (logchannel_ts.setChannel (IsArray a2)) st2 in
  (emits (logchannel_ts.log unicode_upper channel messages) s1
     <-> emits (logchannel_ts.log unicode_upper channel messages) s2) /\
  (emits (logchannel_ts.error unicode_upper channel messages) s1
     <-> emits (logchannel_ts.error unicode_upper channel messages) s2) /\
  (emits (logchannel_ts.debug unicode_upper channel messages) s1
     <-> emits (logchannel_ts.debug unicode_upper channel messages) s2).
Proof.
  intros H1 H2 Hsame s1 s2.
  assert (Hs1 : active_set s1 = Some (List.filter non_empty (map trim xs))).
  { unfold s1, after. rewrite (setChannel_array_run st1 a1 xs H1).
    apply active_set_fresh. }
  assert (Hs2 : active_set s2 = Some (List.filter non_empty (map trim ys))).
  { unfold s2, after. rewrite (setChannel_array_run st2 a2 ys H2).
    apply active_set_fresh. }
  assert (Hkept : forall zs (x : jsstring),
            x ∈ List.filter non_empty (map trim zs)
            <-> non_empty x = true /\ exists z, z ∈ zs /\ trim z = x).
  { intros zs x. rewrite list_elem_of_In, filter_In, in_map_iff.
    split.
    - intros [(z & Hz & Hin) Hne]. split; [exact Hne|].
      exists z. split; [now apply list_elem_of_In|exact Hz].
    - intros [Hne (z & Hin & Hz)]. split; [|exact Hne].
      exists z. split; [exact Hz|now apply list_elem_of_In]. }
  assert (Hmem : channel ∈ List.filter non_empty (map trim xs)
                 <-> channel ∈ List.filter non_empty (map trim ys)).
  { rewrite !Hkept. split; intros [Hne (z & Hin & Hz)]; (split; [exact Hne|]);
      exists z; (split; [now apply Hsame|exact Hz]). }
  unfold logchannel_ts.log, logchannel_ts.error, logchannel_ts.debug.
  rewrite !(_processLogEvent_emits unicode_upper _ _ Hs1),
          !(_processLogEvent_emits unicode_upper _ _ Hs2), Hmem.
  tauto.
Qed.

Lemma X13_witness :
  emits (logchannel_ts.log no_table (js "ok") (one (js "m")))
    (after (logchannel_ts.setChannel (IsArray 0%nat)) st_xy)
  <-> emits (logchannel_ts.log no_table (js "ok") (one (js "m")))
        (after (logchannel_ts.setChannel (IsArray 0%nat))
           (mkState [[js "ok"; js "ok"; [0x09]; js "  "]] None [])).
Proof.
  refine (proj1 (X13_order_and_repetition_do_not_matter no_table st_xy
                   (mkState [[js "ok"; js "ok"; [0x09]; js "  "]] None [])
                   0%nat 0%nat [js "  "; [0x09]; js "ok"]
                   [js "ok"; js "ok"; [0x09]; js "  "] (js "ok") (one (js "m"))
                   eq_refl eq_refl _)).
  intros x. rewrite !elem_of_cons. rewrite !elem_of_nil. tauto.
Defined.

(** ** Copies are independent of each other *)

Lemma mutate_other_cell (b copy : loc) (ys : list jsstring)
    (xss : list (list jsstring)) :
  copy <> b ->
  forall st,
    heap st !! b = Some ys -> is_Some (heap st !! copy) ->
    exists st', mutate copy xss st = (Normal tt, st') /\ heap st' !! b = Some ys.
Proof.
  intros Hne. induction xss as [|xs rest IH]; intros st Hb [zs Hzs].
  - exists st. auto.
  - set (st1 := mkState (<[copy := xs]> (heap st)) (activeChannels st) (console st)).
    pose proof (lookup_lt_Some _ _ _ Hzs) as Hlt.
    assert (Hcopy : heap st1 !! copy = Some xs)
      by now apply list_lookup_insert_eq.
    assert (Hb1 : heap st1 !! b = Some ys)
      by (simpl; now rewrite list_lookup_insert_ne).
    destruct (IH st1 Hb1 (ex_intro _ _ Hcopy)) as (st' & Hrun & Hb').
    exists st'. cbn [mutate].
    rewrite (bind_normal _ _ _ _ _ (write_array_run _ _ _ Hzs xs)).
    auto.
Qed.

(** X15. Every call of [getActiveChannels] returns an array of its own: two
    calls in a row return different references with the same elements, and
    however the first array is mutated afterwards, the second one keeps
    them. *)
Theorem X15_each_call_returns_its_own_array
    (st : State) (acts : list jsstring) (xss : list (list jsstring)) :
  active_set st = Some acts ->
  exists first st1 second st2 st3,
    logchannel_ts.getActiveChannels st = (Normal first, st1) /\
    logchannel_ts.getActiveChannels st1 = (Normal second, st2) /\
    first <> second /\
    heap st2 !! first = Some acts /\
    heap st2 !! second = Some acts /\
    mutate first xss st2 = (Normal tt, st3) /\
    heap st3 !! second = Some acts.
Proof.
  intros (a & Hv & Ha)%active_set_Some.
  pose proof (lookup_lt_Some _ _ _ Ha) as Hlt.
  pose proof (getActiveChannels_run st a acts Hv Ha) as Hrun1.
  set (st1 := mkState (heap st ++ [acts]) (Some a) (console st)) in *.
  assert (Ha1 : heap st1 !! a = Some acts) by (simpl; now rewrite lookup_old).
  pose proof (getActiveChannels_run st1 a acts eq_refl Ha1) as Hrun2.
  set (st2 := mkState (heap st1 ++ [acts]) (Some a) (console st1)) in *.
  assert (Hfirst : heap st2 !! length (heap st) = Some acts).
  { simpl. rewrite lookup_old; [apply lookup_fresh|].
    rewrite length_app. simpl. lia. }
  assert (Hsecond : heap st2 !! length (heap st1) = Some acts)
    by apply lookup_fresh.
  assert (Hne : length (heap st) <> length (heap st1))
    by (simpl; rewrite length_app; simpl; lia).
  destruct (mutate_other_cell (length (heap st1)) (length (heap st)) acts xss
              Hne st2 Hsecond (ex_intro _ _ Hfirst)) as (st3 & Hmut & Hkeep).
  exists (length (heap st)), st1, (length (heap st1)), st2, st3.
  repeat split; assumption.
Qed.

Lemma X15_witness :
  exists first st1 second st2 st3,
    logchannel_ts.getActiveChannels st_xy = (Normal first, st1) /\
    logchannel_ts.getActiveChannels st1 = (Normal second, st2) /\
    first <> second /\
    mutate first [[]; [js "z"]] st2 = (Normal tt, st3) /\
    heap st3 !! second = Some [js "x"; js "y"].
Proof.
  destruct (X15_each_call_returns_its_own_array st_xy [js "x"; js "y"]
              [[]; [js "z"]] eq_refl)
    as (first & st1 & second & st2 & st3 & H1 & H2 & Hne & _ & _ & Hmut & Hkeep).
  exists first, st1, second, st2, st3. repeat split; assumption.
Defined.

(** ** Out of the box *)

Lemma initChannels_degenerate_run deno st0 st :
  degenerate deno ->
  logchannel_ts.initChannels deno st0 = (Normal tt, st) ->
  active_set st = Some [js "default"].
Proof.
  intros Hdeg Hinit.
  assert (Hdef : match deno with
                 | EnvFails _ => True
                 | EnvVars vars =>
                     match vars (js "LOG_CHANNELS") with
                     | None => True
                     | Some v => trim v = []
                     end
                 end -> active_set st = Some [js "default"]).
  { intros H. rewrite (initChannels_default_run deno st0 H) in Hinit.
    injection Hinit as <-. apply active_set_fresh. }
  destruct deno as [e|vars]; [now apply Hdef|]. simpl in Hdeg, Hdef.
  destruct (vars (js "LOG_CHANNELS")) as [v|] eqn:Hv; [|now apply Hdef].
  destruct (trim v) as [|c r] eqn:Ht; [now apply Hdef|].
  destruct Hdeg as [Hdeg|Hkept]; [discriminate|].
  assert (Hne : trim v <> []) by now rewrite Ht.
  rewrite (initChannels_split_run vars v st0 Hv Hne) in Hinit.
  rewrite Hkept in Hinit. injection Hinit as <-. apply active_set_fresh.
Qed.

(** X16. Loaded where [LOG_CHANNELS] gives no channel (access throws, the
    variable is unset or blank, or no piece survives), the module logs on
    the channel ["default"] and on no other: a call of [log] with channel
    ["default"] and at least one message sends [console.log] the prefix
    ["[DEFAULT]"] and the messages, whatever the host's upper-case table,
    and a call with any other channel sends nothing. *)
Theorem X16_default_channel_logs_out_of_the_box
    (unicode_upper : jsstring -> jsstring) (deno : DenoEnv) (st0 : State)
    (channel : jsstring) (messages : list jsvalue) :
  degenerate deno ->
  messages <> [] ->
  exists L st,
    logchannel_ts.LogChannel unicode_upper deno st0 = (Normal L, st) /\
    console (after (log L (js "default") messages) st)
      = console st ++ [(console_log, VString (js "[DEFAULT]") :: messages)] /\
    (channel <> js "default" -> silent (log L channel messages) st).
Proof.
  intros Hdeg Hmsgs.
  destruct (LogChannel_run unicode_upper deno st0) as (st & Hinit & Hload).
  pose proof (initChannels_degenerate_run deno st0 st Hdeg Hinit) as Hset.
  exists (exported unicode_upper), st. split; [exact Hload|].
  unfold exported; cbn [log]. unfold after, logchannel_ts.log. split.
  - rewrite (_processLogEvent_run unicode_upper _ _ _ _ _ _ Hset).
    assert ((0 <? length messages)%nat = true) as ->
      by (destruct messages; [congruence|reflexivity]).
    reflexivity.
  - intros Hne. apply (_processLogEvent_silent unicode_upper _ _ Hset).
    intros [_ Hin]. apply list_elem_of_singleton in Hin. congruence.
Qed.

Lemma X16_witness :
  exists L st,
    logchannel_ts.LogChannel no_table (env_with (js " , ")) unloaded = (Normal L, st) /\
    console (after (log L (js "default") (one (js "up"))) st)
      = [(console_log, [VString (js "[DEFAULT]"); VString (js "up")])] /\
    silent (log L (js "api") (one (js "up"))) st.
Proof.
  assert (Hdeg : degenerate (env_with (js " , "))) by (right; reflexivity).
  assert (Hmsgs : one (js "up") <> []) by discriminate.
  destruct (X16_default_channel_logs_out_of_the_box no_table (env_with (js " , "))
              unloaded (js "api") (one (js "up")) Hdeg Hmsgs)
    as (L & st & Hload & Hout & Hquiet).
  exists L, st. split; [exact Hload|]. split.
  - rewrite Hout. f_equal.
    assert (Hst : console st = []).
    { pose proof (f_equal (fun p => console p.2) Hload) as H. simpl in H.
      rewrite <- H. vm_compute. reflexivity. }
    now rewrite Hst.
  - apply Hquiet. vm_compute. discriminate.
Defined.

(** ** The test script *)

(** X14. Run in a fresh store where [LOG_CHANNELS] is unset or blank or
    the environment cannot be read, the test script completes without a
    throw; of its calls of the module exactly those it announces as
    printing reach the console, each on its console function and with its
    prefix, in the order of the script and among the script's own headings;
    and the arrays it prints as active channels hold [["default"]], the three
    names set, [["custom_service"]], the two names set, nothing, nothing, and
    [["final_channel"]]. *)
Theorem X14_test_script_prints_what_it_announces
    (unicode_upper : jsstring -> jsstring) (deno : DenoEnv) :
  match deno with
  | EnvFails _ => True
  | EnvVars vars =>
      match vars (js "LOG_CHANNELS") with
      | None => True
      | Some v => trim v = []
      end
  end ->
  exists st,
    logchannel_test unicode_upper deno unloaded = (Normal tt, st) /\
    map (fun a => heap st !! a) [1; 5; 7; 11; 13; 17; 19]%nat
    = [Some [js "default"];
       Some [js "user_ops"; js "system_alerts"; js "default"];
       Some [js "custom_service"];
       Some [js "default"; js "special_event"];
       Some [];
       Some [];
       Some [js "final_channel"]] /\
    console st
    = [(console_log,
         [VString (js "--- Initial State (from .env or default) ---")]);
       (console_log,
         [VString (js "Expected initial active channels (e.g., from .env LOG_CHANNELS=" ++ [0x22] ++ js "default" ++ [0x22] ++ js "): [" ++ [0x22] ++ js "default" ++ [0x22] ++ js "]")]);
       (console_log,
         [VString (js "Actual active channels:");
          VObject 1%nat]);
       (console_log,
         [VString (js "[DEFAULT]");
          VString (js "This is a default channel message (should print if 'default' is active).")]);
       (console_error,
         [VString (js "[DEFAULT:ERROR]");
          VString (js "This is a default channel error (should print if 'default' is active).")]);
       (console_debug,
         [VString (js "[DEFAULT:DEBUG]");
          VString (js "This is a default channel debug message (should print if 'default' is active via console.debug).")]);
       (console_log,
         [VString ([0x0A] ++ js "--- Activating 'user_ops', 'system_alerts', and 'default' channels ---")]);
       (console_log,
         [VString (js "Active channels:");
          VObject 5%nat]);
       (console_log,
         [VString (js "[DEFAULT]");
          VString (js "Default log (still active).")]);
       (console_log,
         [VString (js "[USER_OPS]");
          VString (js "'user_ops' channel log (now ACTIVE).")]);
       (console_error,
         [VString (js "[SYSTEM_ALERTS:ERROR]");
          VString (js "'system_alerts' channel error (now ACTIVE).")]);
       (console_debug,
         [VString (js "[USER_OPS:DEBUG]");
          VString (js "'user_ops' channel debug (now ACTIVE).")]);
       (console_debug,
         [VString (js "[DEFAULT:DEBUG]");
          VString (js "Default debug (still active).")]);
       (console_log,
         [VString ([0x0A] ++ js "--- Activating only 'custom_service' channel ---")]);
       (console_log,
         [VString (js "Active channels:");
          VObject 7%nat]);
       (console_log,
         [VString (js "[CUSTOM_SERVICE]");
          VString (js "'custom_service' channel log (now ACTIVE).")]);
       (console_error,
         [VString (js "[CUSTOM_SERVICE:ERROR]");
          VString (js "'custom_service' channel error (now ACTIVE).")]);
       (console_debug,
         [VString (js "[CUSTOM_SERVICE:DEBUG]");
          VString (js "'custom_service' channel debug (now ACTIVE).")]);
       (console_log,
         [VString ([0x0A] ++ js "--- Testing logs with no additional messages (should NOT print anything) ---")]);
       (console_log,
         [VString (js "Active channels:");
          VObject 11%nat]);
       (console_log,
         [VString ([0x0A] ++ js "--- Testing setting empty or whitespace channels ---")]);
       (console_log,
         [VString (js "Active channels (after setChannel('')):");
          VObject 13%nat]);
       (console_log,
         [VString (js "Active channels (after setChannel(['  ', '\t'])):");
          VObject 17%nat]);
       (console_log,
         [VString (js "Active channels:");
          VObject 19%nat]);
       (console_log,
         [VString (js "[FINAL_CHANNEL]");
          VString (js "Message for 'final_channel'.")]);
       (console_error,
         [VString (js "[FINAL_CHANNEL:ERROR]");
          VString (js "Error for 'final_channel'.")]);
       (console_debug,
         [VString (js "[FINAL_CHANNEL:DEBUG]");
          VString (js "Debug for 'final_channel'.")]);
       (console_log,
         [VString ([0x0A] ++ js "--- Test Complete ---")])].
Proof.
  intros Hdeno.
  destruct (LogChannel_run unicode_upper deno unloaded) as (st0 & Hinit & Hload).
  rewrite (initChannels_default_run deno unloaded Hdeno) in Hinit.
  injection Hinit as <-.
  unfold logchannel_test. rewrite (bind_normal _ _ _ _ _ Hload).
  eexists. split; [vm_compute; reflexivity|].
  split; vm_compute; reflexivity.
Qed.

Lemma X14_witness :
  exists st,
    logchannel_test no_table (EnvFails (VError (js "NotCapable"))) unloaded
      = (Normal tt, st) /\
    length (console st) = 28%nat.
Proof.
  destruct (X14_test_script_prints_what_it_announces no_table
              (EnvFails (VError (js "NotCapable"))) I) as (st & Hrun & _ & Hout).
  exists st. split; [exact Hrun|]. rewrite Hout. reflexivity.
Defined.
